(** * The JS event crawler of w3af (w3af/core/controllers/chrome/crawler/js.py)

    A shallow embedding of [ChromeCrawlerJS]: the dispatch log, the admission
    filter, the dispatcher, the side-effect classifier and the two crawl
    loops, followed by the properties of the specification.

    Python objects are mutable and keep their mutations when an exception
    unwinds the stack, so a method is a function from the crawler object to
    an outcome (a value or a raised exception) together with the crawler
    object as the method left it. *)

From Stdlib Require Import String List Bool Arith PeanoNat Lia QArith ListSet.
Import ListNotations.
Local Open Scope string_scope.
Local Open Scope nat_scope.

(** ** Exceptions and outcomes *)

(** The exception classes the crawler names, and a constructor for every
    other class.  [AttributeError] is what Python raises when a method is
    called on the [None] that [__init__] stores in [_chrome].  [GasExhausted]
    is not a Python exception: it marks the end of the gas of the one
    [while] loop, and is shown below never to be raised. *)
Inductive exn : Type :=
| EventException
| EventTimeout
| ChromeInterfaceException
| MaxPageReload
| AttributeError
| OtherException (name : string)
| GasExhausted.

Inductive outcome (A : Type) : Type :=
| Return (a : A)
| Raise (x : exn).
Arguments Return {A} a.
Arguments Raise {A} x.

(** ** Events and the dispatch log *)

(** An event listener as the browser reports it: a dict with the keys
    ['selector'] and ['event_type'] and further keys the crawler never
    reads ([node_type] stands for them). *)
Record Event : Type := mkEvent {
  selector : string;
  event_type : string;
  node_type : string
}.

(** Modelled from the spec: [get_type_selector] is a method of the event
    class, which is not among the sources; two events are the same event iff
    their (event_type, selector) pairs match. *)
Definition get_type_selector (e : Event) : string * string :=
  (event_type e, selector e).

Definition key_eqb (k1 k2 : string * string) : bool :=
  String.eqb (fst k1) (fst k2) && String.eqb (snd k1) (snd k2).

(** [EventDispatchLogUnit.IGNORED = 0], [SUCCESS = 1], [FAILED = 2]. *)
Inductive dispatch_state : Type := IGNORED | SUCCESS | FAILED.

Definition dispatch_state_code (st : dispatch_state) : nat :=
  match st with IGNORED => 0 | SUCCESS => 1 | FAILED => 2 end.

Definition dispatch_state_eqb (a b : dispatch_state) : bool :=
  Nat.eqb (dispatch_state_code a) (dispatch_state_code b).

Record EventDispatchLogUnit : Type := mkUnit {
  event : Event;
  state : dispatch_state
}.

(** [NEW_STATE_FOUND = 0], [TOO_MANY_PAGE_RELOAD = 1],
    [CONTINUE_WITH_NEXT_EVENTS = 2]. *)
Inductive verdict : Type :=
| NEW_STATE_FOUND
| TOO_MANY_PAGE_RELOAD
| CONTINUE_WITH_NEXT_EVENTS.

(** ** Class constants *)

Definition EVENTS_TO_DISPATCH : list string := ["click"; "dblclick"].
Definition MAX_PAGE_RELOAD : nat := 50.
Definition EQUAL_RATIO_AFTER_BACK : Q := 9 # 10.
Definition MAX_CONSECUTIVE_EVENT_DISPATCH_ERRORS : nat := 10.
Definition MAX_INITIAL_STATES : nat := 3.

Definition in_events_to_dispatch (t : string) : bool :=
  existsb (String.eqb t) EVENTS_TO_DISPATCH.

(** ** The LRU dictionary of the fingerprint cache

    [SynchronizedLRUDict(2)] of darts.lib.utils.lru: a dictionary of bounded
    capacity.  The items are kept most recently used first.  Reading a key
    that is present moves it to the front, reading an absent key raises
    [KeyError] (here: [None]), and storing a new key drops the items beyond
    the capacity, the least recently used ones. *)
Module LRU.

Record t : Type := mk {
  capacity : nat;
  items : list (string * string)
}.

Definition empty (cap : nat) : t := mk cap [].

Fixpoint assoc (k : string) (l : list (string * string)) : option string :=
  match l with
  | [] => None
  | (k', v) :: l' => if String.eqb k k' then Some v else assoc k l'
  end.

Fixpoint remove (k : string) (l : list (string * string))
  : list (string * string) :=
  match l with
  | [] => []
  | (k', v) :: l' =>
      if String.eqb k k' then remove k l' else (k', v) :: remove k l'
  end.

Definition size (d : t) : nat := length (items d).

(** [d[k]] *)
Definition getitem (k : string) (d : t) : option (string * t) :=
  match assoc k (items d) with
  | None => None
  | Some v => Some (v, mk (capacity d) ((k, v) :: remove k (items d)))
  end.

(** [d[k] = v] *)
Definition setitem (k v : string) (d : t) : t :=
  mk (capacity d) (firstn (capacity d) ((k, v) :: remove k (items d))).

End LRU.

(** ** The browser

    The instrumented chrome is a collaborator: every method takes the
    browser as it is and gives an outcome and the browser as it then is.
    Any method may raise any exception. *)
Class Chrome (B : Type) : Type := {
  get_url : B -> outcome string * B;
  get_dom : B -> outcome string * B;
  get_all_event_listeners : list string -> B -> outcome (list Event) * B;
  dispatch_js_event : string -> string -> B -> outcome unit * B;
  load_url : string -> B -> outcome unit * B;
  wait_for_load : option Q -> B -> outcome bool * B;
  navigation_started : option Q -> B -> outcome bool * B
}.

(** ** Debug output

    [om.out.debug(msg % args)]: one constructor per message of the module,
    with the arguments in the order the code passes them. *)
Inductive DebugMsg : Type :=
| MsgInterfaceException (url : string) (cie : exn)
| MsgBigDomChange (url did : string)
| MsgTooManyReloads (arg1 : string) (arg2 : nat) (arg3 : string)
| MsgTooManyErrors (url did : string)
| MsgProcessing (event_i : nat) (url : string) (errors total : nat)
                (event_types : list (string * nat)) (did : string)
| MsgDispatching (ty sel url did : string)
| MsgTargetMissing (ty sel url did : string)
| MsgDispatchTimeout (ty sel url did : string)
| MsgAlreadySent (ty sel url did : string).

(** ** A state and exception monad

    [M S A]: a computation over a mutable object of type [S] that returns an
    [A] or raises; the object survives the exception. *)
Definition M (S A : Type) : Type := S -> outcome A * S.

Definition ret {S A} (a : A) : M S A := fun s => (Return a, s).

Definition raise {S A} (x : exn) : M S A := fun s => (Raise x, s).

Definition bind {S A C} (m : M S A) (k : A -> M S C) : M S C :=
  fun s =>
    match m s with
    | (Return a, s') => k a s'
    | (Raise x, s') => (Raise x, s')
    end.

Definition gets {S A} (f : S -> A) : M S A := fun s => (Return (f s), s).

Definition modify {S} (f : S -> S) : M S unit := fun s => (Return tt, f s).

(** [try: m / except <classes of the handler>: ... / else: els].  The handler
    answers [None] for the exceptions no [except] clause matches. *)
Definition try_except_else {S A C}
    (m : M S A) (handler : exn -> option (M S C)) (els : A -> M S C) : M S C :=
  fun s =>
    match m s with
    | (Return a, s') => els a s'
    | (Raise x, s') =>
        match handler x with
        | Some h => h s'
        | None => (Raise x, s')
        end
    end.

Definition try_except {S A}
    (m : M S A) (handler : exn -> option (M S A)) : M S A :=
  try_except_else m handler ret.

Declare Scope crawler_scope.
Delimit Scope crawler_scope with crawler.
Notation "x <- m ;; k" := (bind m (fun x => k))
  (at level 61, m at next level, right associativity) : crawler_scope.
Notation "m ;; k" := (bind m (fun _ => k))
  (at level 61, right associativity) : crawler_scope.
Local Open Scope crawler_scope.

(** ** The fingerprinting collaborators

    [get_xml_bones] of w3af.core.data.misc.xml_bones is the structural
    fingerprint of a DOM, a total function of the DOM text.  [similarity] is
    the ratio that [fuzzy_equal] compares with its threshold, as a
    rational. *)
Class Fingerprints : Type := {
  get_xml_bones : string -> string;
  similarity : string -> string -> Q
}.

(** ** The crawler object *)

Section Crawler.

Context {B : Type} {chrome_ops : Chrome B} {fingerprints : Fingerprints}.

(** Modelled from the spec: [fuzzy_equal] of
    w3af.core.controllers.misc.fuzzy_string_cmp is not among the sources; two
    fingerprints with similarity >= threshold are treated equal, those below
    it are not, and the boundary counts as equal. *)
Definition fuzzy_equal (a b : string) (threshold : Q) : bool :=
  Qle_bool threshold (similarity a b).

(** The attributes of [ChromeCrawlerJS].  [__init__] stores [None] in
    [_chrome], [_url], [_initial_dom] and [_initial_bones_xml]; the last
    three are assigned before any method reads them and hold the empty
    string until then.  [_pool] is never read and is left out.  [om_out] is
    the debug output written so far and [get_xml_bones_calls] counts the
    invocations of [get_xml_bones]: both are instrumentation. *)
Record ChromeCrawlerJS : Type := mkCrawler {
  _debugging_id : string;
  _chrome : option B;
  _event_dispatch_log : list EventDispatchLogUnit;
  _url : string;
  _initial_dom : string;
  _initial_bones_xml : string;
  _reloaded_base_url_count : nat;
  _visited_urls : set string;
  _cached_xml_bones : LRU.t;
  om_out : list DebugMsg;
  get_xml_bones_calls : nat
}.

Definition set_chrome (v : option B) (s : ChromeCrawlerJS) :=
  mkCrawler (_debugging_id s) v (_event_dispatch_log s) (_url s)
    (_initial_dom s) (_initial_bones_xml s) (_reloaded_base_url_count s)
    (_visited_urls s) (_cached_xml_bones s) (om_out s) (get_xml_bones_calls s).

Definition set_event_dispatch_log (v : list EventDispatchLogUnit)
    (s : ChromeCrawlerJS) :=
  mkCrawler (_debugging_id s) (_chrome s) v (_url s)
    (_initial_dom s) (_initial_bones_xml s) (_reloaded_base_url_count s)
    (_visited_urls s) (_cached_xml_bones s) (om_out s) (get_xml_bones_calls s).

Definition set_url (v : string) (s : ChromeCrawlerJS) :=
  mkCrawler (_debugging_id s) (_chrome s) (_event_dispatch_log s) v
    (_initial_dom s) (_initial_bones_xml s) (_reloaded_base_url_count s)
    (_visited_urls s) (_cached_xml_bones s) (om_out s) (get_xml_bones_calls s).

Definition set_initial_dom (v : string) (s : ChromeCrawlerJS) :=
  mkCrawler (_debugging_id s) (_chrome s) (_event_dispatch_log s) (_url s)
    v (_initial_bones_xml s) (_reloaded_base_url_count s)
    (_visited_urls s) (_cached_xml_bones s) (om_out s) (get_xml_bones_calls s).

Definition set_initial_bones_xml (v : string) (s : ChromeCrawlerJS) :=
  mkCrawler (_debugging_id s) (_chrome s) (_event_dispatch_log s) (_url s)
    (_initial_dom s) v (_reloaded_base_url_count s)
    (_visited_urls s) (_cached_xml_bones s) (om_out s) (get_xml_bones_calls s).

Definition set_reloaded_base_url_count (v : nat) (s : ChromeCrawlerJS) :=
  mkCrawler (_debugging_id s) (_chrome s) (_event_dispatch_log s) (_url s)
    (_initial_dom s) (_initial_bones_xml s) v
    (_visited_urls s) (_cached_xml_bones s) (om_out s) (get_xml_bones_calls s).

Definition set_visited_urls (v : set string) (s : ChromeCrawlerJS) :=
  mkCrawler (_debugging_id s) (_chrome s) (_event_dispatch_log s) (_url s)
    (_initial_dom s) (_initial_bones_xml s) (_reloaded_base_url_count s)
    v (_cached_xml_bones s) (om_out s) (get_xml_bones_calls s).

Definition set_cached_xml_bones (v : LRU.t) (s : ChromeCrawlerJS) :=
  mkCrawler (_debugging_id s) (_chrome s) (_event_dispatch_log s) (_url s)
    (_initial_dom s) (_initial_bones_xml s) (_reloaded_base_url_count s)
    (_visited_urls s) v (om_out s) (get_xml_bones_calls s).

Definition set_om_out (v : list DebugMsg) (s : ChromeCrawlerJS) :=
  mkCrawler (_debugging_id s) (_chrome s) (_event_dispatch_log s) (_url s)
    (_initial_dom s) (_initial_bones_xml s) (_reloaded_base_url_count s)
    (_visited_urls s) (_cached_xml_bones s) v (get_xml_bones_calls s).

Definition set_get_xml_bones_calls (v : nat) (s : ChromeCrawlerJS) :=
  mkCrawler (_debugging_id s) (_chrome s) (_event_dispatch_log s) (_url s)
    (_initial_dom s) (_initial_bones_xml s) (_reloaded_base_url_count s)
    (_visited_urls s) (_cached_xml_bones s) (om_out s) v.

Definition __init__ (debugging_id : string) : ChromeCrawlerJS :=
  mkCrawler debugging_id None [] "" "" "" 0 (empty_set string)
    (LRU.empty 2) [] 0.

Definition Method : Type -> Type := M ChromeCrawlerJS.

(** [om.out.debug(...)] *)
Definition om_out_debug (msg : DebugMsg) : Method unit :=
  modify (fun s => set_om_out (om_out s ++ [msg]) s).

(** [self._chrome.<op>(...)] *)
Definition chrome_call {A} (op : B -> outcome A * B) : Method A :=
  fun s =>
    match _chrome s with
    | None => (Raise AttributeError, s)
    | Some b => let (r, b') := op b in (r, set_chrome (Some b') s)
    end.

(** *** [_cached_get_xml_bones] *)
Definition _cached_get_xml_bones (dom_str : string) : Method string :=
  fun s =>
    match LRU.getitem dom_str (_cached_xml_bones s) with
    | Some (v, d) => (Return v, set_cached_xml_bones d s)
    | None =>
        let xml_bones := get_xml_bones dom_str in
        let s1 := set_get_xml_bones_calls (S (get_xml_bones_calls s)) s in
        (Return xml_bones,
         set_cached_xml_bones
           (LRU.setitem dom_str xml_bones (_cached_xml_bones s1)) s1)
    end.

(** *** [_ignore_event] *)
Definition _ignore_event (e : Event) : Method unit :=
  modify (fun s =>
    set_event_dispatch_log (_event_dispatch_log s ++ [mkUnit e IGNORED]) s).

(** *** [_should_dispatch_event]

    The [for] loop over the dispatch log: the first unit with the key of the
    candidate decides. *)
Fixpoint _should_dispatch_event_for (e : Event)
    (units : list EventDispatchLogUnit) : Method bool :=
  match units with
  | [] => ret true
  | event_dispatch_log_unit :: rest =>
      if negb (key_eqb (get_type_selector e)
                 (get_type_selector (event event_dispatch_log_unit)))
      then _should_dispatch_event_for e rest
      else if dispatch_state_eqb (state event_dispatch_log_unit) FAILED
      then ret true
      else
        url <- gets _url ;;
        did <- gets _debugging_id ;;
        om_out_debug (MsgAlreadySent (event_type e) (selector e) url did) ;;
        _ignore_event e ;;
        ret false
  end.

Definition _should_dispatch_event (e : Event) : Method bool :=
  let current_event_type := event_type e in
  if negb (in_events_to_dispatch current_event_type)
  then _ignore_event e ;; ret false
  else
    units <- gets _event_dispatch_log ;;
    _should_dispatch_event_for e units.

(** *** [_dispatch_event] *)
Definition log_dispatch (e : Event) (st : dispatch_state) : Method unit :=
  modify (fun s =>
    set_event_dispatch_log (_event_dispatch_log s ++ [mkUnit e st]) s).

Definition _dispatch_event (e : Event) : Method bool :=
  let sel := selector e in
  let ty := event_type e in
  url <- gets _url ;;
  did <- gets _debugging_id ;;
  om_out_debug (MsgDispatching ty sel url did) ;;
  try_except_else
    (chrome_call (dispatch_js_event sel ty))
    (fun x =>
       match x with
       | EventException =>
           Some (om_out_debug (MsgTargetMissing ty sel url did) ;;
                 log_dispatch e FAILED ;;
                 ret false)
       | EventTimeout =>
           Some (om_out_debug (MsgDispatchTimeout ty sel url did) ;;
                 log_dispatch e FAILED ;;
                 ret false)
       | _ => None
       end)
    (fun _ => log_dispatch e SUCCESS ;; ret true).

(** *** [_reload_base_url] *)
Definition _reload_base_url : Method bool :=
  modify (fun s =>
    set_reloaded_base_url_count (S (_reloaded_base_url_count s)) s) ;;
  url <- gets _url ;;
  chrome_call (load_url url) ;;
  chrome_call (wait_for_load None).

(** *** [_conditional_wait_for_load] *)
Definition _conditional_wait_for_load : Method unit :=
  potentially_new_url <- chrome_call get_url ;;
  visited <- gets _visited_urls ;;
  if set_mem string_dec potentially_new_url visited
  then ret tt
  else
    modify (fun s =>
      set_visited_urls
        (set_add string_dec potentially_new_url (_visited_urls s)) s) ;;
    chrome_call (wait_for_load (Some 1%Q)) ;;
    ret tt.

(** *** [_bones_xml_are_equal] *)
Definition _bones_xml_are_equal (bones_xml_a bones_xml_b : string) : bool :=
  fuzzy_equal bones_xml_a bones_xml_b EQUAL_RATIO_AFTER_BACK.

(** *** [_print_stats] and the two counters *)
Definition _get_total_dispatch_error_count (s : ChromeCrawlerJS) : nat :=
  length (filter (fun i => dispatch_state_eqb (state i) FAILED)
            (_event_dispatch_log s)).

Definition _get_total_dispatch_count (s : ChromeCrawlerJS) : nat :=
  length (filter (fun i => negb (dispatch_state_eqb (state i) IGNORED))
            (_event_dispatch_log s)).

Fixpoint count_event_type (ty : string) (event_types : list (string * nat))
  : list (string * nat) :=
  match event_types with
  | [] => [(ty, 1)]
  | (k, n) :: rest =>
      if String.eqb ty k then (k, S n) :: rest
      else (k, n) :: count_event_type ty rest
  end.

Definition _print_stats (event_i : nat) : Method unit :=
  units <- gets _event_dispatch_log ;;
  let event_types :=
    fold_left (fun d u => count_event_type (event_type (event u)) d)
      units [] in
  url <- gets _url ;;
  errors <- gets _get_total_dispatch_error_count ;;
  total <- gets _get_total_dispatch_count ;;
  did <- gets _debugging_id ;;
  om_out_debug (MsgProcessing event_i url errors total event_types did).

(** *** [_handle_event_dispatch_side_effects] *)
Definition reload_and_read_dom : Method string :=
  _conditional_wait_for_load ;;
  _reload_base_url ;;
  chrome_call get_dom.

Definition all_failed (units : list EventDispatchLogUnit) : bool :=
  let last_dispatch_results :=
    firstn MAX_CONSECUTIVE_EVENT_DISPATCH_ERRORS units in
  let last_dispatch_results := map state last_dispatch_results in
  forallb (fun st => dispatch_state_eqb st FAILED) last_dispatch_results.

(** Lines 225-262: the DOM after the dispatch, read again after a reload of
    the base URL when the browser left it, and its fingerprint. *)
Definition current_bones_xml_after_dispatch : Method string :=
  current_dom <-
    try_except_else (chrome_call get_dom)
      (fun x =>
         match x with
         | ChromeInterfaceException => Some reload_and_read_dom
         | _ => None
         end)
      (fun current_dom =>
         potentially_new_url <- chrome_call get_url ;;
         url <- gets _url ;;
         if negb (String.eqb potentially_new_url url)
         then reload_and_read_dom
         else ret current_dom) ;;
  _cached_get_xml_bones current_dom.

(** Lines 264-302: the three checks, in the order of the code. *)
Definition verdict_of_bones_xml (current_bones_xml : string)
  : Method verdict :=
  initial_bones_xml <- gets _initial_bones_xml ;;
  url <- gets _url ;;
  did <- gets _debugging_id ;;
  if negb (_bones_xml_are_equal initial_bones_xml current_bones_xml)
  then (om_out_debug (MsgBigDomChange url did) ;; ret NEW_STATE_FOUND)
  else
    reloaded <- gets _reloaded_base_url_count ;;
    if MAX_PAGE_RELOAD <? reloaded
    then (om_out_debug (MsgTooManyReloads url MAX_PAGE_RELOAD did) ;;
          ret TOO_MANY_PAGE_RELOAD)
    else
      units <- gets _event_dispatch_log ;;
      if all_failed units
      then (om_out_debug (MsgTooManyErrors url did) ;; ret NEW_STATE_FOUND)
      else ret CONTINUE_WITH_NEXT_EVENTS.

Definition _handle_event_dispatch_side_effects : Method verdict :=
  current_bones_xml <- current_bones_xml_after_dispatch ;;
  verdict_of_bones_xml current_bones_xml.

(** *** [_crawl_one_state]

    The [for] loop over the listeners answers [Some r] when its body
    executes [return r] and [None] when the listeners are used up. *)
Fixpoint _crawl_one_state_for (event_i : nat) (event_listeners : list Event)
  : Method (option bool) :=
  match event_listeners with
  | [] => ret None
  | e :: rest =>
      should <- _should_dispatch_event e ;;
      if negb should
      then _crawl_one_state_for (S event_i) rest
      else
        _dispatch_event e ;;
        _print_stats event_i ;;
        result <- _handle_event_dispatch_side_effects ;;
        match result with
        | CONTINUE_WITH_NEXT_EVENTS => _crawl_one_state_for (S event_i) rest
        | NEW_STATE_FOUND => ret (Some false)
        | TOO_MANY_PAGE_RELOAD => raise MaxPageReload
        end
  end.

Definition _crawl_one_state : Method bool :=
  initial_dom <- chrome_call get_dom ;;
  modify (set_initial_dom initial_dom) ;;
  initial_dom <- gets _initial_dom ;;
  initial_bones_xml <- _cached_get_xml_bones initial_dom ;;
  modify (set_initial_bones_xml initial_bones_xml) ;;
  event_listeners <-
    chrome_call (get_all_event_listeners EVENTS_TO_DISPATCH) ;;
  returned <- _crawl_one_state_for 0 event_listeners ;;
  match returned with
  | Some r => ret r
  | None =>
      chrome_call (wait_for_load (Some (1 # 2))) ;;
      chrome_call (navigation_started (Some (1 # 2))) ;;
      ret true
  end.

(** *** [_crawl_all_states]

    The [while] loop, with the loop test as the code writes it.  Every turn
    that does not leave the loop adds one to [initial_state_counter], so
    [MAX_INITIAL_STATES] units of gas are enough
    ([_crawl_all_states_while_gas] below). *)
Fixpoint _crawl_all_states_while (gas : nat) (successfully_completed : bool)
    (initial_state_counter : nat) : Method unit :=
  if negb successfully_completed
     && (initial_state_counter <? MAX_INITIAL_STATES)
  then
    match gas with
    | O => raise GasExhausted
    | S gas' =>
        fun s =>
          match _crawl_one_state s with
          | (Raise MaxPageReload, s') => (Return tt, s')
          | (Raise x, s') => (Raise x, s')
          | (Return completed, s') =>
              _crawl_all_states_while gas' completed
                (S initial_state_counter) s'
          end
    end
  else ret tt.

Definition _crawl_all_states : Method unit :=
  _crawl_all_states_while MAX_INITIAL_STATES false 0.

(** *** [crawl] *)
Definition crawl (chrome : B) (url : string) : Method unit :=
  modify (set_chrome (Some chrome)) ;;
  home <- chrome_call get_url ;;
  modify (set_url home) ;;
  try_except _crawl_all_states
    (fun x =>
       match x with
       | ChromeInterfaceException =>
           Some (om_out_debug (MsgInterfaceException url x))
       | _ => None
       end).

Definition get_name : string := "JS events".

End Crawler.

Arguments ChromeCrawlerJS B : clear implicits.
Arguments Method B A : clear implicits.

(** ** A simulated browser

    A small deterministic browser on which the crawler can be run: a site
    of pages, the location and DOM of the tab, the listeners of the page and
    a script that says what each successive event dispatch does: nothing
    visible, a navigation (with the DOM of the new page at once, or only
    after the next load), a change of the DOM in place, a form submission
    that changes a page of the site and navigates, a missing target, a
    timeout, or the loss of the connection to the browser.  It is an
    instance of [Chrome] like any other; the general theorems below do not
    depend on it. *)
Module Sim.

Inductive effect : Type :=
| Handled
| Navigates (url : string)
| NavigatesSlowly (url : string)
| Rewrites (dom : string)
| Submits (target url dom : string)
| TargetMissing
| TimesOut
| Crashes.

Record t : Type := mk {
  site : list (string * string);
  location : string;
  dom : string;
  dom_ready : bool;
  listeners : list Event;
  script : list effect;
  down : bool;
  loaded : list string
}.

Definition page (url : string) (b : t) : string :=
  match LRU.assoc url (site b) with
  | Some d => d
  | None => ""
  end.

Definition guarded {A} (b : t) (r : outcome A * t) : outcome A * t :=
  if down b then (Raise ChromeInterfaceException, b) else r.

Definition sim_get_url (b : t) : outcome string * t :=
  guarded b (Return (location b), b).

Definition sim_get_dom (b : t) : outcome string * t :=
  guarded b
    (if dom_ready b then (Return (dom b), b)
     else (Raise ChromeInterfaceException, b)).

Definition sim_get_all_event_listeners (event_filter : list string) (b : t)
  : outcome (list Event) * t :=
  guarded b
    (Return (filter (fun e => existsb (String.eqb (event_type e)) event_filter)
               (listeners b)), b).

Definition goto (url : string) (ready : bool) (b : t) : t :=
  mk (site b) url (page url b) ready (listeners b) (script b) (down b)
     (loaded b).

Definition with_script (sc : list effect) (b : t) : t :=
  mk (site b) (location b) (dom b) (dom_ready b) (listeners b) sc (down b)
     (loaded b).

Definition apply_effect (f : effect) (b : t) : outcome unit * t :=
  match f with
  | Handled => (Return tt, b)
  | Navigates url => (Return tt, goto url true b)
  | NavigatesSlowly url => (Return tt, goto url false b)
  | Rewrites d =>
      (Return tt,
       mk (site b) (location b) d (dom_ready b) (listeners b) (script b)
          (down b) (loaded b))
  | Submits target url d =>
      (Return tt,
       goto target true
         (mk ((url, d) :: site b) (location b) (dom b) (dom_ready b)
             (listeners b) (script b) (down b) (loaded b)))
  | TargetMissing => (Raise EventException, b)
  | TimesOut => (Raise EventTimeout, b)
  | Crashes =>
      (Raise ChromeInterfaceException,
       mk (site b) (location b) (dom b) (dom_ready b) (listeners b)
          (script b) true (loaded b))
  end.

Definition sim_dispatch_js_event (sel ty : string) (b : t)
  : outcome unit * t :=
  guarded b
    (match script b with
     | [] => (Return tt, b)
     | f :: rest => apply_effect f (with_script rest b)
     end).

Definition sim_load_url (url : string) (b : t) : outcome unit * t :=
  guarded b
    (Return tt,
     mk (site b) url (page url b) true (listeners b) (script b) (down b)
        (loaded b ++ [url])).

Definition sim_wait_for_load (timeout : option Q) (b : t)
  : outcome bool * t :=
  guarded b (Return true, b).

Definition sim_navigation_started (timeout : option Q) (b : t)
  : outcome bool * t :=
  guarded b (Return false, b).

(** A tab that has just loaded [url] of [pages]. *)
Definition open (pages : list (string * string)) (url : string)
    (ls : list Event) (sc : list effect) : t :=
  mk pages url
     (match LRU.assoc url pages with Some d => d | None => "" end)
     true ls sc false [].

End Sim.

#[export] Instance sim_chrome : Chrome Sim.t := {
  get_url := Sim.sim_get_url;
  get_dom := Sim.sim_get_dom;
  get_all_event_listeners := Sim.sim_get_all_event_listeners;
  dispatch_js_event := Sim.sim_dispatch_js_event;
  load_url := Sim.sim_load_url;
  wait_for_load := Sim.sim_wait_for_load;
  navigation_started := Sim.sim_navigation_started
}.

(** Fingerprints for the simulated runs: the bones of a DOM are the DOM, and
    two fingerprints are similar (ratio 1) when they are the same text and
    dissimilar (ratio 0) otherwise. *)
Definition exact_fingerprints : Fingerprints := {|
  get_xml_bones := fun d => d;
  similarity := fun a b => if String.eqb a b then 1%Q else 0%Q
|}.

(** Fingerprints whose similarity ratio is always the threshold itself. *)
Definition boundary_fingerprints : Fingerprints := {|
  get_xml_bones := fun d => d;
  similarity := fun _ _ => (9 # 10)%Q
|}.

(** ** Scenarios for the simulated browser *)

Definition home : string := "http://w3af.test/".
Definition elsewhere : string := "http://w3af.test/other".

Definition click (sel : string) : Event := mkEvent sel "click" "button".

Fixpoint tally (n : nat) : string :=
  match n with
  | O => ""
  | S k => "i" ++ tally k
  end.

(** [n] listeners on [n] different buttons. *)
Definition buttons (n : nat) : list Event :=
  map (fun i => click ("#b" ++ tally i)) (seq 0 n).

Definition one_page : list (string * string) :=
  [(home, "<html><a/></html>"); (elsewhere, "<html><a/></html>")].

Definition fresh : ChromeCrawlerJS Sim.t := __init__ "did-1".

Definition crawl_sim (b : Sim.t) (url : string)
  : outcome unit * ChromeCrawlerJS Sim.t :=
  crawl (fingerprints := exact_fingerprints) b url fresh.

(** The crawler as [crawl] leaves it before [_crawl_all_states], with a
    given dispatch log, reload count and initial fingerprint. *)
Definition in_session (b : Sim.t) (log : list EventDispatchLogUnit)
    (reloads : nat) (bones : string) : ChromeCrawlerJS Sim.t :=
  set_initial_bones_xml bones
    (set_reloaded_base_url_count reloads
       (set_event_dispatch_log log
          (set_url home (set_chrome (Some b) fresh)))).

(** A page whose every button navigates away. *)
Definition reload_loop : Sim.t :=
  Sim.open one_page home (buttons 60) (repeat (Sim.Navigates elsewhere) 60).

(** The same, with three form submissions after the fiftieth navigation,
    each of which changes the home page. *)
Definition three_states : Sim.t :=
  Sim.open one_page home (buttons 60)
    (repeat (Sim.Navigates elsewhere) 50 ++
     [Sim.Submits elsewhere home "<html><b/></html>";
      Sim.Submits elsewhere home "<html><c/></html>";
      Sim.Submits elsewhere home "<html><d/></html>"]).

(** Three listeners on one button; the first dispatch finds no target. *)
Definition flaky_button : Sim.t :=
  Sim.open one_page home [click "#go"; click "#go"; click "#go"]
    [Sim.TargetMissing].

(** Twelve buttons; the first dispatch is handled, the next ten fail. *)
Definition ten_failures : Sim.t :=
  Sim.open one_page home (buttons 12)
    (Sim.Handled :: repeat Sim.TargetMissing 10).

(** A browser that has lost its connection. *)
Definition lost : Sim.t :=
  Sim.mk one_page home "" false [] [] true [].

(** A tab that a redirect has taken to [elsewhere]; its one button
    navigates to a third page. *)
Definition redirected : Sim.t :=
  Sim.open one_page elsewhere [click "#go"]
    [Sim.Navigates "http://w3af.test/third"].

(** A quiet page with one button. *)
Definition quiet : Sim.t := Sim.open one_page home [click "#go"] [].

Definition bones_of_home : string := "<html><a/></html>".

(** The tab of [quiet] after a navigation to [elsewhere]. *)
Definition away : Sim.t := Sim.goto elsewhere true quiet.

(** A log of one handled dispatch followed by ten failed ones. *)
Definition one_success_ten_failures : list EventDispatchLogUnit :=
  mkUnit (click "#b") SUCCESS
  :: map (fun e => mkUnit e FAILED) (tl (buttons 11)).

(** The keys and outcomes of a log. *)
Definition outcomes (log : list EventDispatchLogUnit)
  : list (string * dispatch_state) :=
  map (fun u => (selector (event u), state u)) log.

(** ** Vocabulary of the properties *)

(** [log[-n:]], the most recent [n] entries of a log. *)
Definition last_entries (n : nat) (log : list EventDispatchLogUnit)
  : list EventDispatchLogUnit :=
  skipn (length log - n) log.

Definition all_FAILED (units : list EventDispatchLogUnit) : Prop :=
  Forall (fun u => state u = FAILED) units.

(** The first unit of the log with the key of [e], if there is one. *)
Definition first_with_key (e : Event) (log : list EventDispatchLogUnit)
  : option EventDispatchLogUnit :=
  find (fun u => key_eqb (get_type_selector e) (get_type_selector (event u)))
    log.

(** The units of the log with the key of [e]. *)
Definition with_key (e : Event) (log : list EventDispatchLogUnit)
  : list EventDispatchLogUnit :=
  filter (fun u => key_eqb (get_type_selector e) (get_type_selector (event u)))
    log.

Section Vocabulary.

Context {B : Type} {chrome_ops : Chrome B} {fingerprints : Fingerprints}.

(** A sequence of [_cached_get_xml_bones] calls, one per DOM text, with the
    fingerprints they return. *)
Fixpoint cached_calls (doms : list string) : Method B (list string) :=
  match doms with
  | [] => ret []
  | d :: rest =>
      x <- _cached_get_xml_bones d ;;
      xs <- cached_calls rest ;;
      ret (x :: xs)
  end.

(** The crawler object after [m]. *)
Definition after {A} (m : Method B A) (s : ChromeCrawlerJS B)
  : ChromeCrawlerJS B := snd (m s).

(** The outcome of [m]. *)
Definition result {A} (m : Method B A) (s : ChromeCrawlerJS B)
  : outcome A := fst (m s).

(** [m] leaves the attribute (or other observation) [f] as it was. *)
Definition keeps {A X} (f : ChromeCrawlerJS B -> X) (m : Method B A) : Prop :=
  forall s, f (after m s) = f s.

(** [f] does not depend on the attribute that [set] assigns. *)
Definition ignores {V X} (set : V -> ChromeCrawlerJS B -> ChromeCrawlerJS B)
    (f : ChromeCrawlerJS B -> X) : Prop :=
  forall v s, f (set v s) = f s.

(** [f] depends neither on the browser nor on the debug output, the
    visited URLs, the fingerprint cache or the call counter. *)
Definition io_independent {X} (f : ChromeCrawlerJS B -> X) : Prop :=
  ignores set_chrome f /\ ignores set_om_out f /\
  ignores set_visited_urls f /\ ignores set_cached_xml_bones f /\
  ignores set_get_xml_bones_calls f.

(** The cache of a crawler built by [__init__] has capacity 2, and no
    method assigns the capacity. *)
Definition cache_bounded (s : ChromeCrawlerJS B) : Prop :=
  LRU.capacity (_cached_xml_bones s) = 2 /\
  LRU.size (_cached_xml_bones s) <= 2.

(** [m] calls [_reload_base_url] at most once. *)
Definition reloads_at_most_once {A} (m : Method B A) : Prop :=
  forall s,
    _reloaded_base_url_count s <= _reloaded_base_url_count (after m s) /\
    _reloaded_base_url_count (after m s) <= S (_reloaded_base_url_count s).

(** One turn of the [for] loop of [_crawl_one_state] on a listener that is
    dispatched: the crawler object when the classifier starts, and when it
    is over. *)
Definition before_classifier (i : nat) (e : Event) (s : ChromeCrawlerJS B)
  : ChromeCrawlerJS B :=
  after (_print_stats i)
    (after (_dispatch_event e) (after (_should_dispatch_event e) s)).

Definition after_classifier (i : nat) (e : Event) (s : ChromeCrawlerJS B)
  : ChromeCrawlerJS B :=
  after _handle_event_dispatch_side_effects (before_classifier i e s).

End Vocabulary.

(** ** Vocabulary of the further properties *)

(** The sum of the counts of an [event_types] dictionary. *)
Definition tally_total (event_types : list (string * nat)) : nat :=
  fold_right (fun p n => snd p + n) 0 event_types.

(** The [event_types] dictionary that [_print_stats] builds from a log. *)
Definition event_types_of (units : list EventDispatchLogUnit)
  : list (string * nat) :=
  fold_left (fun d u => count_event_type (event_type (event u)) d) units [].

(** The count that an [event_types] dictionary holds for an event type,
    0 when the type is not a key. *)
Definition tally_get (ty : string) (event_types : list (string * nat))
  : nat :=
  match find (fun p => String.eqb ty (fst p)) event_types with
  | Some p => snd p
  | None => 0
  end.

(** What the filter decides for a candidate, given the log. *)
Definition accepts (e : Event) (log : list EventDispatchLogUnit) : bool :=
  in_events_to_dispatch (event_type e) &&
  match first_with_key e log with
  | None => true
  | Some u => dispatch_state_eqb (state u) FAILED
  end.

Section FurtherVocabulary.

Context {B : Type} {chrome_ops : Chrome B} {fingerprints : Fingerprints}.

(** The dispatch log of [s'] is the one of [s] with entries appended. *)
Definition log_extends (s s' : ChromeCrawlerJS B) : Prop :=
  exists new,
    _event_dispatch_log s' = (_event_dispatch_log s ++ new)%list.

(** [m] only appends to the dispatch log. *)
Definition appends_only {A} (m : Method B A) : Prop :=
  forall s, log_extends s (after m s).

(** Every fingerprint in the cache is the fingerprint of its DOM text. *)
Definition cache_coherent (s : ChromeCrawlerJS B) : Prop :=
  forall k v,
    LRU.assoc k (LRU.items (_cached_xml_bones s)) = Some v ->
    v = get_xml_bones k.

(** [m] keeps the invariant [P], whatever its outcome. *)
Definition preserves {A} (P : ChromeCrawlerJS B -> Prop) (m : Method B A)
  : Prop :=
  forall s, P s -> P (after m s).

(** The [try] statement of the classifier (lines 225-260): the DOM it goes
    on with. *)
Definition dom_after_dispatch : Method B string :=
  try_except_else (chrome_call get_dom)
    (fun x =>
       match x with
       | ChromeInterfaceException => Some reload_and_read_dom
       | _ => None
       end)
    (fun current_dom =>
       potentially_new_url <- chrome_call get_url ;;
       url <- gets _url ;;
       if negb (String.eqb potentially_new_url url)
       then reload_and_read_dom
       else ret current_dom).

(** The two invariants of the fingerprint cache. *)
Definition cache_ok (s : ChromeCrawlerJS B) : Prop :=
  cache_bounded s /\ cache_coherent s.

End FurtherVocabulary.

(** * The document parser (w3af/core/data/parsers/document_parser.py)

    [DocumentParser.__init__] picks a parser for an HTTP response among the
    parser classes of [PARSERS].  The response and the parser classes are
    collaborators: a class says whether it can parse a response
    ([can_parse]) and builds a parser instance from it, which under the
    [ThreadingTimeout] of the code either returns the instance, raises
    [TimeoutException] or raises something else. *)
Module DocumentParser.

Inductive message : Type :=
| NoParserForImages
| NoParserFor (url : string).

Inductive exn : Type :=
| BaseFrameworkException (msg : message)
| TimeoutException
| OtherException (name : string).

Inductive outcome (A : Type) : Type :=
| Return (a : A)
| Raise (x : exn).
Arguments Return {A} a.
Arguments Raise {A} x.

(** [om.out.debug] of the timeout: the name of the parser class, the
    timeout and the URL of the response. *)
Inductive debug : Type :=
| MsgParserTimeout (parser_name : string) (timeout : nat) (url : string).

Record ParserClass (Resp P : Type) : Type := mkParserClass {
  __name__ : string;
  can_parse : Resp -> bool;
  construct : Resp -> outcome P
}.
Arguments __name__ {Resp P} _.
Arguments can_parse {Resp P} _ _.
Arguments construct {Resp P} _ _.

Class Collaborators (Resp P : Type) : Type := {
  is_image : Resp -> bool;
  get_url : Resp -> string;
  WMLParser : ParserClass Resp P;
  JavaScriptParser : ParserClass Resp P;
  PDFParser : ParserClass Resp P;
  SWFParser : ParserClass Resp P;
  HTMLParser : ParserClass Resp P
}.

(** in seconds *)
Definition PARSER_TIMEOUT : nat := 60.

Section Parser.

Context {Resp P : Type} {collaborators : Collaborators Resp P}.

Definition PARSERS : list (ParserClass Resp P) :=
  [WMLParser; JavaScriptParser; PDFParser; SWFParser; HTMLParser].

(** The object under construction: [self._parser] and the debug output
    written so far. *)
Record DocumentParser : Type := mkDocumentParser {
  _parser : option P;
  om_out : list debug
}.

(** The [for] loop of [__init__]: it has no [break], so every class of the
    list is asked, and each class that can parse the response and is built
    in time overwrites [self._parser]. *)
Fixpoint __init___for (parsers : list (ParserClass Resp P))
    (http_resp : Resp) (self : DocumentParser)
  : outcome unit * DocumentParser :=
  match parsers with
  | [] => (Return tt, self)
  | parser :: rest =>
      if can_parse parser http_resp
      then
        match construct parser http_resp with
        | Return p =>
            __init___for rest http_resp
              (mkDocumentParser (Some p) (om_out self))
        | Raise TimeoutException =>
            __init___for rest http_resp
              (mkDocumentParser (_parser self)
                 (om_out self ++
                  [MsgParserTimeout (__name__ parser) PARSER_TIMEOUT
                     (get_url http_resp)]))
        | Raise x => (Raise x, self)
        end
      else __init___for rest http_resp self
  end.

Definition __init__ (http_resp : Resp) : outcome unit * DocumentParser :=
  let self := mkDocumentParser None [] in
  if is_image http_resp
  then (Raise (BaseFrameworkException NoParserForImages), self)
  else
    match __init___for PARSERS http_resp self with
    | (Raise x, self) => (Raise x, self)
    | (Return _, self) =>
        match _parser self with
        | None =>
            (Raise (BaseFrameworkException (NoParserFor (get_url http_resp))),
             self)
        | Some _ => (Return tt, self)
        end
    end.

Definition document_parser_factory (http_resp : Resp)
  : outcome unit * DocumentParser :=
  __init__ http_resp.

(** The capable classes of a list, each with what its construction does. *)
Definition attempts (parsers : list (ParserClass Resp P)) (http_resp : Resp)
  : list (ParserClass Resp P * outcome P) :=
  map (fun c => (c, construct c http_resp))
    (filter (fun c => can_parse c http_resp) parsers).

(** An attempt that raises something else than [TimeoutException]. *)
Definition crashes (a : ParserClass Resp P * outcome P) : bool :=
  match snd a with
  | Raise TimeoutException => false
  | Raise _ => true
  | Return _ => false
  end.

(** The instances that a list of attempts builds, in order. *)
Definition built (l : list (ParserClass Resp P * outcome P)) : list P :=
  flat_map (fun a => match snd a with Return p => [p] | Raise _ => [] end) l.

(** The classes of a list of attempts that time out, in order. *)
Definition timed_out (l : list (ParserClass Resp P * outcome P))
  : list (ParserClass Resp P) :=
  flat_map
    (fun a => match snd a with Raise TimeoutException => [fst a] | _ => [] end)
    l.

(** The attempts made before the first one that crashes, and the
    exception of that one. *)
Fixpoint before_crash (l : list (ParserClass Resp P * outcome P))
  : list (ParserClass Resp P * outcome P) :=
  match l with
  | [] => []
  | a :: rest => if crashes a then [] else a :: before_crash rest
  end.

Fixpoint first_crash (l : list (ParserClass Resp P * outcome P))
  : option exn :=
  match l with
  | [] => None
  | a :: rest =>
      if crashes a
      then match snd a with Raise x => Some x | Return _ => None end
      else first_crash rest
  end.

Definition timeout_message (http_resp : Resp) (c : ParserClass Resp P)
  : debug :=
  MsgParserTimeout (__name__ c) PARSER_TIMEOUT (get_url http_resp).

End Parser.

Arguments DocumentParser P : clear implicits.

End DocumentParser.

(** Parser classes for a run: a response is its content type, WML and
    HTML parsers tell by it, and the PDF parser never finishes in time. *)
Definition toy_parsers : DocumentParser.Collaborators string string := {|
  DocumentParser.is_image := fun r => String.eqb r "image/png";
  DocumentParser.get_url := fun _ => home;
  DocumentParser.WMLParser :=
    DocumentParser.mkParserClass _ _ "WMLParser"
      (fun r => String.eqb r "text/vnd.wap.wml")
      (fun _ => DocumentParser.Return "wml");
  DocumentParser.JavaScriptParser :=
    DocumentParser.mkParserClass _ _ "JavaScriptParser"
      (fun r => String.eqb r "text/javascript")
      (fun _ => DocumentParser.Return "js");
  DocumentParser.PDFParser :=
    DocumentParser.mkParserClass _ _ "PDFParser"
      (fun r => String.eqb r "application/pdf")
      (fun _ => DocumentParser.Raise DocumentParser.TimeoutException);
  DocumentParser.SWFParser :=
    DocumentParser.mkParserClass _ _ "SWFParser"
      (fun r => String.eqb r "application/x-shockwave-flash")
      (fun _ => DocumentParser.Return "swf");
  DocumentParser.HTMLParser :=
    DocumentParser.mkParserClass _ _ "HTMLParser"
      (fun r => String.prefix "text/" r)
      (fun _ => DocumentParser.Return "html")
|}.

(** The same classes, with an SWF parser that raises on every response
    and also claims the WML content type. *)
Definition crashing_parsers : DocumentParser.Collaborators string string := {|
  DocumentParser.is_image := DocumentParser.is_image (Collaborators := toy_parsers);
  DocumentParser.get_url := DocumentParser.get_url (Collaborators := toy_parsers);
  DocumentParser.WMLParser := DocumentParser.WMLParser (Collaborators := toy_parsers);
  DocumentParser.JavaScriptParser :=
    DocumentParser.JavaScriptParser (Collaborators := toy_parsers);
  DocumentParser.PDFParser := DocumentParser.PDFParser (Collaborators := toy_parsers);
  DocumentParser.SWFParser :=
    DocumentParser.mkParserClass _ _ "SWFParser"
      (fun r => String.eqb r "text/vnd.wap.wml")
      (fun _ => DocumentParser.Raise (DocumentParser.OtherException "struct.error"));
  DocumentParser.HTMLParser := DocumentParser.HTMLParser (Collaborators := toy_parsers)
|}.

(** A page whose one button brings the browser down. *)
Definition crashing : Sim.t :=
  Sim.open one_page home [click "#go"] [Sim.Crashes].

(** * Properties *)

Section Properties.

Context {B : Type} {chrome_ops : Chrome B} {fingerprints : Fingerprints}.

Implicit Types (s : ChromeCrawlerJS B) (e : Event).

(** ** The monad, pointwise *)

Lemma keeps_ret {A X} (f : ChromeCrawlerJS B -> X) (a : A) : keeps f (ret a).
Proof. now intros s. Qed.

Lemma keeps_raise {A X} (f : ChromeCrawlerJS B -> X) x :
  keeps f (raise (A := A) x).
Proof. now intros s. Qed.

Lemma keeps_gets {A X} (f : ChromeCrawlerJS B -> X)
    (g : ChromeCrawlerJS B -> A) :
  keeps f (gets g).
Proof. now intros s. Qed.

Lemma keeps_modify {X} (f : ChromeCrawlerJS B -> X) g :
  (forall s, f (g s) = f s) -> keeps f (modify g).
Proof. intros H s. apply H. Qed.

Lemma keeps_bind {A C X} (f : ChromeCrawlerJS B -> X)
    (m : Method B A) (k : A -> Method B C) :
  keeps f m -> (forall a, keeps f (k a)) -> keeps f (bind m k).
Proof.
  intros Hm Hk s. unfold after, bind.
  specialize (Hm s). unfold after in Hm.
  destruct (m s) as [[a | x] s1]; simpl in *.
  - rewrite <- Hm. apply Hk.
  - exact Hm.
Qed.

Lemma keeps_try_except_else {A C X} (f : ChromeCrawlerJS B -> X)
    (m : Method B A) handler (els : A -> Method B C) :
  keeps f m ->
  (forall x h, handler x = Some h -> keeps f h) ->
  (forall a, keeps f (els a)) ->
  keeps f (try_except_else m handler els).
Proof.
  intros Hm Hh He s. unfold after, try_except_else.
  specialize (Hm s). unfold after in Hm.
  destruct (m s) as [[a | x] s1]; simpl in *.
  - rewrite <- Hm. apply He.
  - destruct (handler x) as [h |] eqn:E; simpl.
    + rewrite <- Hm. apply (Hh x h E).
    + exact Hm.
Qed.

Lemma keeps_chrome_call {A X} (f : ChromeCrawlerJS B -> X)
    (op : B -> outcome A * B) :
  ignores set_chrome f -> keeps f (chrome_call op).
Proof.
  intros H s. unfold after, chrome_call.
  destruct (_chrome s) as [b |]; [| reflexivity].
  destruct (op b) as [r b']. simpl. apply H.
Qed.

Lemma keeps_om_out_debug {X} (f : ChromeCrawlerJS B -> X) msg :
  ignores set_om_out f -> keeps f (om_out_debug msg).
Proof. intros H. apply keeps_modify. intros s. apply H. Qed.


(** ** What each method leaves alone *)

Ltac keeps_step :=
  first
    [ apply keeps_ret | apply keeps_raise | apply keeps_gets
    | apply keeps_bind; [| intros ? ]
    | apply keeps_om_out_debug; assumption
    | apply keeps_chrome_call; assumption
    | apply keeps_modify; intros ?; solve [ auto ]
    | match goal with |- keeps _ (if ?c then _ else _) => destruct c end
    | match goal with |- keeps _ (match ?c with _ => _ end) => destruct c end ].

Ltac keeps_auto := repeat keeps_step.

Section Kept.

Context {X : Type} (f : ChromeCrawlerJS B -> X).
Hypothesis f_io : io_independent f.

Lemma keeps_browser {A} (op : B -> outcome A * B) : keeps f (chrome_call op).
Proof. apply keeps_chrome_call, f_io. Qed.

Lemma keeps_debug msg : keeps f (om_out_debug msg).
Proof. apply keeps_om_out_debug, f_io. Qed.

Lemma keeps_cached_get_xml_bones d : keeps f (_cached_get_xml_bones d).
Proof.
  destruct f_io as (_ & _ & _ & Hc & Hn).
  intros s. unfold after, _cached_get_xml_bones.
  destruct (LRU.getitem d (_cached_xml_bones s)) as [[v c] |]; simpl.
  - apply Hc.
  - rewrite Hc. apply Hn.
Qed.

Lemma keeps_conditional_wait_for_load : keeps f _conditional_wait_for_load.
Proof.
  destruct f_io as (Hb & _ & Hv & _ & _).
  unfold _conditional_wait_for_load. keeps_auto.
Qed.

Lemma keeps_print_stats i : keeps f (_print_stats i).
Proof.
  destruct f_io as (_ & Ho & _). unfold _print_stats. keeps_auto.
Qed.

Lemma keeps_verdict_of_bones_xml b : keeps f (verdict_of_bones_xml b).
Proof.
  destruct f_io as (_ & Ho & _). unfold verdict_of_bones_xml. keeps_auto.
Qed.

Section KeptByReload.

Hypothesis f_count : ignores set_reloaded_base_url_count f.

Lemma keeps_reload_base_url : keeps f _reload_base_url.
Proof.
  destruct f_io as (Hb & _). unfold _reload_base_url. keeps_auto.
Qed.

Lemma keeps_reload_and_read_dom : keeps f reload_and_read_dom.
Proof.
  unfold reload_and_read_dom.
  apply keeps_bind; [apply keeps_conditional_wait_for_load | intros _].
  apply keeps_bind; [apply keeps_reload_base_url | intros _].
  apply keeps_browser.
Qed.

Lemma keeps_current_bones_xml_after_dispatch :
  keeps f current_bones_xml_after_dispatch.
Proof.
  unfold current_bones_xml_after_dispatch.
  apply keeps_bind; [| intros d; apply keeps_cached_get_xml_bones].
  apply keeps_try_except_else.
  - apply keeps_browser.
  - intros x h E. destruct x; inversion E; subst.
    apply keeps_reload_and_read_dom.
  - intros d. apply keeps_bind; [apply keeps_browser | intros u].
    apply keeps_bind; [apply keeps_gets | intros url].
    destruct (negb _); [apply keeps_reload_and_read_dom | apply keeps_ret].
Qed.

Lemma keeps_handle_event_dispatch_side_effects :
  keeps f _handle_event_dispatch_side_effects.
Proof.
  unfold _handle_event_dispatch_side_effects.
  apply keeps_bind; [apply keeps_current_bones_xml_after_dispatch |].
  intros b. apply keeps_verdict_of_bones_xml.
Qed.

End KeptByReload.

Section KeptByLog.

Hypothesis f_log : ignores set_event_dispatch_log f.

Lemma keeps_ignore_event e : keeps f (_ignore_event e).
Proof. apply keeps_modify. intros s. apply f_log. Qed.

Lemma keeps_log_dispatch e st : keeps f (log_dispatch e st).
Proof. apply keeps_modify. intros s. apply f_log. Qed.

Lemma keeps_should_dispatch_event_for e units :
  keeps f (_should_dispatch_event_for e units).
Proof.
  induction units as [| u rest IH]; simpl.
  - apply keeps_ret.
  - destruct (negb _); [exact IH |].
    destruct (dispatch_state_eqb _ _); [apply keeps_ret |].
    apply keeps_bind; [apply keeps_gets | intros url].
    apply keeps_bind; [apply keeps_gets | intros did].
    apply keeps_bind; [apply keeps_debug | intros _].
    apply keeps_bind; [apply keeps_ignore_event | intros _].
    apply keeps_ret.
Qed.

Lemma keeps_should_dispatch_event e : keeps f (_should_dispatch_event e).
Proof.
  unfold _should_dispatch_event. destruct (negb _).
  - apply keeps_bind; [apply keeps_ignore_event | intros _; apply keeps_ret].
  - apply keeps_bind; [apply keeps_gets | intros units].
    apply keeps_should_dispatch_event_for.
Qed.

Lemma keeps_dispatch_event e : keeps f (_dispatch_event e).
Proof.
  unfold _dispatch_event.
  apply keeps_bind; [apply keeps_gets | intros url].
  apply keeps_bind; [apply keeps_gets | intros did].
  apply keeps_bind; [apply keeps_debug | intros _].
  apply keeps_try_except_else.
  - apply keeps_browser.
  - intros x h E.
    destruct x; inversion E; subst;
      (apply keeps_bind; [apply keeps_debug | intros _];
       apply keeps_bind; [apply keeps_log_dispatch | intros _];
       apply keeps_ret).
  - intros _. apply keeps_bind; [apply keeps_log_dispatch | intros _].
    apply keeps_ret.
Qed.

End KeptByLog.

Section KeptBySession.

Hypothesis f_count : ignores set_reloaded_base_url_count f.
Hypothesis f_log : ignores set_event_dispatch_log f.

Lemma keeps_crawl_one_state_for listeners :
  forall i, keeps f (_crawl_one_state_for i listeners).
Proof.
  induction listeners as [| e rest IH]; intros i; simpl.
  - apply keeps_ret.
  - apply keeps_bind; [now apply keeps_should_dispatch_event | intros should].
    destruct (negb should); [apply IH |].
    apply keeps_bind; [now apply keeps_dispatch_event | intros _].
    apply keeps_bind; [apply keeps_print_stats | intros _].
    apply keeps_bind;
      [now apply keeps_handle_event_dispatch_side_effects | intros v].
    destruct v; [apply keeps_ret | apply keeps_raise | apply IH].
Qed.

Hypothesis f_dom : ignores set_initial_dom f.
Hypothesis f_bones : ignores set_initial_bones_xml f.

Lemma keeps_crawl_one_state : keeps f _crawl_one_state.
Proof.
  unfold _crawl_one_state.
  apply keeps_bind; [apply keeps_browser | intros d].
  apply keeps_bind; [apply keeps_modify; intros s; apply f_dom | intros _].
  apply keeps_bind; [apply keeps_gets | intros d'].
  apply keeps_bind; [apply keeps_cached_get_xml_bones | intros b].
  apply keeps_bind; [apply keeps_modify; intros s; apply f_bones | intros _].
  apply keeps_bind; [apply keeps_browser | intros ls].
  apply keeps_bind; [apply keeps_crawl_one_state_for | intros r].
  destruct r; [apply keeps_ret |].
  apply keeps_bind; [apply keeps_browser | intros _].
  apply keeps_bind; [apply keeps_browser | intros _].
  apply keeps_ret.
Qed.

Lemma keeps_crawl_all_states_while gas :
  forall completed i, keeps f (_crawl_all_states_while gas completed i).
Proof.
  induction gas as [| gas IH]; intros completed i s; unfold after; simpl;
    destruct (negb completed && (i <? MAX_INITIAL_STATES)); try reflexivity.
  pose proof (keeps_crawl_one_state s) as H. unfold after in H.
  destruct (_crawl_one_state s) as [[r | x] s1]; simpl in H.
  - rewrite <- H. apply IH.
  - destruct x; exact H.
Qed.

Lemma keeps_crawl_all_states : keeps f _crawl_all_states.
Proof. apply keeps_crawl_all_states_while. Qed.

End KeptBySession.

End Kept.

Ltac ignores_all := repeat split; intros ? ?; reflexivity.

Lemma url_io : io_independent (_url (B := B)).
Proof. ignores_all. Qed.

Lemma log_io : io_independent (_event_dispatch_log (B := B)).
Proof. ignores_all. Qed.

Lemma count_io : io_independent (_reloaded_base_url_count (B := B)).
Proof. ignores_all. Qed.

Lemma initial_bones_io : io_independent (_initial_bones_xml (B := B)).
Proof. ignores_all. Qed.

(** The home URL is assigned by [crawl] and by nothing else. *)
Lemma url_constant : keeps _url _crawl_all_states.
Proof. apply keeps_crawl_all_states; solve [apply url_io | ignores_all]. Qed.

(** ** The filter of candidate events *)

Lemma dispatch_state_eqb_FAILED st :
  dispatch_state_eqb st FAILED = true <-> st = FAILED.
Proof. destruct st; cbv; split; congruence. Qed.

(** The scan of the log, by the first unit that has the key of the
    candidate. *)
Lemma should_dispatch_event_for_first e units s :
  _should_dispatch_event_for e units s =
  match first_with_key e units with
  | None => (Return true, s)
  | Some u =>
      if dispatch_state_eqb (state u) FAILED then (Return true, s)
      else
        (Return false,
         set_event_dispatch_log
           (_event_dispatch_log s ++ [mkUnit e IGNORED])
           (set_om_out
              (om_out s ++
               [MsgAlreadySent (event_type e) (selector e) (_url s)
                  (_debugging_id s)]) s))
  end.
Proof.
  induction units as [| u rest IH]; simpl; [reflexivity |].
  destruct (key_eqb _ _); simpl; [| exact IH].
  destruct (dispatch_state_eqb _ _); reflexivity.
Qed.

Lemma first_with_key_all_FAILED e units u :
  first_with_key e units = Some u ->
  all_FAILED (with_key e units) -> state u = FAILED.
Proof.
  unfold first_with_key, with_key, all_FAILED. intros Hf Ha.
  apply find_some in Hf. destruct Hf as [Hin Hk].
  rewrite Forall_forall in Ha. apply Ha, filter_In. now split.
Qed.

(** C4, retry on failure: a candidate of a dispatchable type whose key has
    entries in the dispatch log, all of them [FAILED], is accepted again by
    [_should_dispatch_event]: it returns [True] and leaves the crawler
    object, and so the dispatch log, exactly as it was (no [IGNORED] entry
    is appended). *)
Theorem retry_on_failure e s :
  in_events_to_dispatch (event_type e) = true ->
  with_key e (_event_dispatch_log s) <> [] ->
  all_FAILED (with_key e (_event_dispatch_log s)) ->
  _should_dispatch_event e s = (Return true, s).
Proof.
  intros Hty _ Hall. unfold _should_dispatch_event. rewrite Hty. simpl.
  unfold bind, gets. rewrite should_dispatch_event_for_first.
  destruct (first_with_key e (_event_dispatch_log s)) as [u |] eqn:Hf;
    [| reflexivity].
  apply first_with_key_all_FAILED in Hf; [| exact Hall].
  rewrite Hf. reflexivity.
Qed.

(** C1, as amended: the earliest entry of the dispatch log with the key of
    the candidate decides.  (1) When it is [SUCCESS] or [IGNORED],
    [_should_dispatch_event] returns [False], appends one [IGNORED] entry
    for the candidate and does not touch the browser.  (2) When it is
    [FAILED] and the candidate is of a dispatchable type,
    [_should_dispatch_event] returns [True] and changes nothing, whatever
    entries follow it. *)
Theorem dedup_by_first_entry e s u :
  first_with_key e (_event_dispatch_log s) = Some u ->
  (state u <> FAILED ->
   result (_should_dispatch_event e) s = Return false /\
   _event_dispatch_log (after (_should_dispatch_event e) s) =
     (_event_dispatch_log s ++ [mkUnit e IGNORED])%list /\
   _chrome (after (_should_dispatch_event e) s) = _chrome s) /\
  (state u = FAILED ->
   in_events_to_dispatch (event_type e) = true ->
   _should_dispatch_event e s = (Return true, s)).
Proof.
  intros Hf. split.
  - intros Hst. unfold result, after, _should_dispatch_event.
    destruct (negb (in_events_to_dispatch (event_type e))); [now simpl |].
    unfold bind, gets. rewrite should_dispatch_event_for_first, Hf.
    destruct (dispatch_state_eqb (state u) FAILED) eqn:E; [| now simpl].
    apply dispatch_state_eqb_FAILED in E. contradiction.
  - intros Hst Hty. unfold _should_dispatch_event. rewrite Hty. simpl.
    unfold bind, gets. rewrite should_dispatch_event_for_first, Hf, Hst.
    reflexivity.
Qed.

(** ** The dispatcher *)

(** [_dispatch_event], by what the browser does with the event. *)
Lemma dispatch_event_cases e s b :
  _chrome s = Some b ->
  match fst (dispatch_js_event (selector e) (event_type e) b) with
  | Return _ =>
      result (_dispatch_event e) s = Return true /\
      _event_dispatch_log (after (_dispatch_event e) s) =
        (_event_dispatch_log s ++ [mkUnit e SUCCESS])%list
  | Raise EventException | Raise EventTimeout =>
      result (_dispatch_event e) s = Return false /\
      _event_dispatch_log (after (_dispatch_event e) s) =
        (_event_dispatch_log s ++ [mkUnit e FAILED])%list
  | Raise x =>
      result (_dispatch_event e) s = Raise x /\
      _event_dispatch_log (after (_dispatch_event e) s) =
        _event_dispatch_log s
  end.
Proof.
  intros Hb. unfold result, after, _dispatch_event.
  unfold bind, gets, om_out_debug, modify, try_except_else, chrome_call.
  simpl. rewrite Hb.
  destruct (dispatch_js_event (selector e) (event_type e) b) as [[[] | x] b'];
    simpl; [now split |].
  destruct x; simpl; now split.
Qed.

(** C7, the outcome mapping of [_dispatch_event]: when the browser handles
    the event the dispatcher appends one [SUCCESS] entry for it and returns
    [True]; when the browser raises [EventException] or [EventTimeout] it
    appends one [FAILED] entry and returns [False]; any other exception of
    the browser leaves the dispatcher as it is, and the log is unchanged. *)
Theorem dispatch_event_outcome e s b :
  _chrome s = Some b ->
  match fst (dispatch_js_event (selector e) (event_type e) b) with
  | Return _ =>
      result (_dispatch_event e) s = Return true /\
      _event_dispatch_log (after (_dispatch_event e) s) =
        (_event_dispatch_log s ++ [mkUnit e SUCCESS])%list
  | Raise EventException | Raise EventTimeout =>
      result (_dispatch_event e) s = Return false /\
      _event_dispatch_log (after (_dispatch_event e) s) =
        (_event_dispatch_log s ++ [mkUnit e FAILED])%list
  | Raise x =>
      result (_dispatch_event e) s = Raise x /\
      _event_dispatch_log (after (_dispatch_event e) s) =
        _event_dispatch_log s
  end.
Proof. exact (dispatch_event_cases e s b). Qed.

(** ** The fingerprint cache *)

Lemma lru_remove_length k l : length (LRU.remove k l) <= length l.
Proof.
  induction l as [| [k' v] l IH]; simpl; [lia |].
  destruct (String.eqb k k'); simpl; lia.
Qed.

Lemma lru_remove_assoc k l v :
  LRU.assoc k l = Some v -> S (length (LRU.remove k l)) <= length l.
Proof.
  induction l as [| [k' v'] l IH]; simpl; [discriminate |].
  destruct (String.eqb k k'); simpl; intros H.
  - pose proof (lru_remove_length k l). lia.
  - apply IH in H. lia.
Qed.

Lemma lru_setitem_size k v d : LRU.size (LRU.setitem k v d) <= LRU.capacity d.
Proof.
  unfold LRU.size, LRU.setitem. simpl LRU.items.
  rewrite length_firstn. lia.
Qed.

Lemma lru_getitem_size k d v d' :
  LRU.getitem k d = Some (v, d') ->
  LRU.size d' <= LRU.size d /\ LRU.capacity d' = LRU.capacity d /\
  LRU.assoc k (LRU.items d) = Some v /\
  LRU.assoc k (LRU.items d') = Some v.
Proof.
  unfold LRU.getitem, LRU.size.
  destruct (LRU.assoc k (LRU.items d)) as [w |] eqn:E; [| discriminate].
  intros H. inversion H; subst. simpl. rewrite String.eqb_refl.
  repeat split; try reflexivity.
  eapply lru_remove_assoc; eassumption.
Qed.

Lemma cached_get_xml_bones_bounded d s :
  cache_bounded s -> cache_bounded (after (_cached_get_xml_bones d) s).
Proof.
  intros [Hc Hs]. unfold cache_bounded, after, _cached_get_xml_bones.
  destruct (LRU.getitem d (_cached_xml_bones s)) as [[v c] |] eqn:E; simpl.
  - apply lru_getitem_size in E. destruct E as (H1 & H2 & _). split; lia.
  - split; [exact Hc |].
    pose proof (lru_setitem_size d (get_xml_bones d) (_cached_xml_bones s)).
    lia.
Qed.

Lemma cached_calls_bounded doms :
  forall s, cache_bounded s -> cache_bounded (after (cached_calls doms) s).
Proof.
  induction doms as [| d rest IH]; intros s Hs; [exact Hs |].
  unfold after. simpl. unfold bind.
  pose proof (cached_get_xml_bones_bounded d s Hs) as H1. unfold after in H1.
  destruct (_cached_get_xml_bones d s) as [[x | x] s1]; simpl in *;
    [| exact H1].
  specialize (IH s1 H1). unfold after in IH.
  destruct (cached_calls rest s1) as [[xs | y] s2]; exact IH.
Qed.

(** A hit: the cached value is returned and [get_xml_bones] is not
    called. *)
Lemma cached_get_xml_bones_hit d v s :
  LRU.assoc d (LRU.items (_cached_xml_bones s)) = Some v ->
  result (_cached_get_xml_bones d) s = Return v /\
  get_xml_bones_calls (after (_cached_get_xml_bones d) s)
    = get_xml_bones_calls s.
Proof.
  intros H. unfold result, after, _cached_get_xml_bones, LRU.getitem.
  rewrite H. now simpl.
Qed.

(** Whatever a call returns is cached when the call is over. *)
Lemma cached_get_xml_bones_caches d s :
  LRU.capacity (_cached_xml_bones s) = 2 ->
  exists v,
    result (_cached_get_xml_bones d) s = Return v /\
    LRU.assoc d (LRU.items (_cached_xml_bones
                              (after (_cached_get_xml_bones d) s))) = Some v /\
    get_xml_bones_calls (after (_cached_get_xml_bones d) s)
      <= S (get_xml_bones_calls s).
Proof.
  intros Hc. unfold result, after, _cached_get_xml_bones.
  destruct (LRU.getitem d (_cached_xml_bones s)) as [[v c] |] eqn:E; simpl.
  - exists v. apply lru_getitem_size in E. destruct E as (_ & _ & _ & E).
    repeat split; [exact E | lia].
  - exists (get_xml_bones d). unfold LRU.setitem. rewrite Hc. simpl.
    rewrite String.eqb_refl. repeat split; lia.
Qed.

(** C8, the fingerprint cache: on a crawler whose cache has the capacity 2
    that [__init__] gives it, (1) after any sequence of
    [_cached_get_xml_bones] calls the cache holds at most 2 entries; (2) a
    call for a DOM text that is cached returns the cached value and does not
    invoke [get_xml_bones]; (3) of two consecutive calls with the same DOM
    text the second returns what the first returned and does not invoke
    [get_xml_bones], so the two invoke it at most once. *)
Theorem fingerprint_cache s :
  cache_bounded s ->
  (forall doms,
     LRU.size (_cached_xml_bones (after (cached_calls doms) s)) <= 2) /\
  (forall d v,
     LRU.assoc d (LRU.items (_cached_xml_bones s)) = Some v ->
     result (_cached_get_xml_bones d) s = Return v /\
     get_xml_bones_calls (after (_cached_get_xml_bones d) s)
       = get_xml_bones_calls s) /\
  (forall d,
     let s1 := after (_cached_get_xml_bones d) s in
     let s2 := after (_cached_get_xml_bones d) s1 in
     result (_cached_get_xml_bones d) s1 = result (_cached_get_xml_bones d) s /\
     get_xml_bones_calls s2 = get_xml_bones_calls s1 /\
     get_xml_bones_calls s2 <= S (get_xml_bones_calls s)).
Proof.
  intros Hs. split; [| split].
  - intros doms. apply (cached_calls_bounded doms s Hs).
  - intros d v. apply cached_get_xml_bones_hit.
  - intros d s1 s2.
    destruct (cached_get_xml_bones_caches d s (proj1 Hs)) as (v & Hr & Ha & Hn).
    destruct (cached_get_xml_bones_hit d v s1 Ha) as [Hr2 Hn2].
    subst s2. rewrite Hr, Hr2, Hn2. auto.
Qed.

(** ** The side-effect classifier *)

Lemma result_bind {A C} (m : Method B A) (k : A -> Method B C) s :
  result (bind m k) s =
  match result m s with
  | Return a => result (k a) (after m s)
  | Raise x => Raise x
  end.
Proof. unfold result, after, bind. now destruct (m s) as [[a | x] s1]. Qed.

Lemma after_bind {A C} (m : Method B A) (k : A -> Method B C) s :
  after (bind m k) s =
  match result m s with
  | Return a => after (k a) (after m s)
  | Raise x => after m s
  end.
Proof. unfold result, after, bind. now destruct (m s) as [[a | x] s1]. Qed.

Lemma run_eq {A} (m : Method B A) s : m s = (result m s, after m s).
Proof. unfold result, after. now destruct (m s). Qed.

Lemma keeps_reloads {A} (m : Method B A) :
  keeps _reloaded_base_url_count m -> reloads_at_most_once m.
Proof. intros H s. rewrite (H s). lia. Qed.

Lemma reloads_bind_l {A C} (m : Method B A) (k : A -> Method B C) :
  reloads_at_most_once m ->
  (forall a, keeps _reloaded_base_url_count (k a)) ->
  reloads_at_most_once (bind m k).
Proof.
  intros Hm Hk s. rewrite after_bind.
  destruct (result m s) as [a | x]; [rewrite (Hk a) |]; apply Hm.
Qed.

Lemma reloads_bind_r {A C} (m : Method B A) (k : A -> Method B C) :
  keeps _reloaded_base_url_count m ->
  (forall a, reloads_at_most_once (k a)) ->
  reloads_at_most_once (bind m k).
Proof.
  intros Hm Hk s. rewrite after_bind.
  destruct (result m s) as [a | x].
  - rewrite <- (Hm s). apply Hk.
  - rewrite (Hm s). lia.
Qed.

Lemma reload_base_url_reloads : reloads_at_most_once _reload_base_url.
Proof.
  unfold _reload_base_url. intros s. rewrite after_bind. simpl.
  assert (K : keeps _reloaded_base_url_count
                (bind (gets _url) (fun url : string =>
                   bind (chrome_call (load_url url))
                     (fun _ => chrome_call (wait_for_load None))))).
  { apply keeps_bind; [apply keeps_gets | intros url].
    apply keeps_bind; intros; apply keeps_browser, count_io. }
  rewrite K. unfold after, modify. simpl. lia.
Qed.

Lemma reload_and_read_dom_reloads : reloads_at_most_once reload_and_read_dom.
Proof.
  unfold reload_and_read_dom.
  apply reloads_bind_r;
    [apply keeps_conditional_wait_for_load, count_io | intros _].
  apply reloads_bind_l; [apply reload_base_url_reloads | intros _].
  apply keeps_browser, count_io.
Qed.

Lemma current_bones_xml_after_dispatch_reloads :
  reloads_at_most_once current_bones_xml_after_dispatch.
Proof.
  unfold current_bones_xml_after_dispatch.
  apply reloads_bind_l;
    [| intros d; apply keeps_cached_get_xml_bones, count_io].
  intros s. unfold after, try_except_else.
  pose proof (keeps_browser _ count_io get_dom s) as K. unfold after in K.
  destruct (chrome_call get_dom s) as [[d | x] s1]; simpl in K.
  - rewrite <- K.
    apply (reloads_bind_r (chrome_call get_url));
      [apply keeps_browser, count_io | intros u].
    apply reloads_bind_r; [apply keeps_gets | intros url].
    destruct (negb _);
      [apply reload_and_read_dom_reloads | apply keeps_reloads, keeps_ret].
  - rewrite <- K.
    destruct x; simpl; try lia. apply reload_and_read_dom_reloads.
Qed.

Lemma handle_event_dispatch_side_effects_reloads :
  reloads_at_most_once _handle_event_dispatch_side_effects.
Proof.
  unfold _handle_event_dispatch_side_effects.
  apply reloads_bind_l; [apply current_bones_xml_after_dispatch_reloads |].
  intros b. apply keeps_verdict_of_bones_xml, count_io.
Qed.

(** The three checks on a fingerprint, as one expression. *)
Lemma verdict_of_bones_xml_result b s :
  result (verdict_of_bones_xml b) s =
  Return
    (if negb (_bones_xml_are_equal (_initial_bones_xml s) b)
     then NEW_STATE_FOUND
     else if MAX_PAGE_RELOAD <? _reloaded_base_url_count s
     then TOO_MANY_PAGE_RELOAD
     else if all_failed (_event_dispatch_log s) then NEW_STATE_FOUND
     else CONTINUE_WITH_NEXT_EVENTS).
Proof.
  unfold result, verdict_of_bones_xml, bind, gets. simpl.
  destruct (negb _); [reflexivity |]. simpl.
  destruct (MAX_PAGE_RELOAD <? _); [reflexivity |]. simpl.
  now destruct (all_failed _).
Qed.

(** The classifier, by the outcome of the first half: either the browser
    raised, or the verdict is the one of the three checks on the dispatch
    log and initial fingerprint as they were and on the count of reloads as
    it is after the first half. *)
Lemma handle_event_dispatch_side_effects_result s :
  result _handle_event_dispatch_side_effects s =
  match result current_bones_xml_after_dispatch s with
  | Raise x => Raise x
  | Return b =>
      Return
        (if negb (_bones_xml_are_equal (_initial_bones_xml s) b)
         then NEW_STATE_FOUND
         else if MAX_PAGE_RELOAD <?
                   _reloaded_base_url_count
                     (after _handle_event_dispatch_side_effects s)
         then TOO_MANY_PAGE_RELOAD
         else if all_failed (_event_dispatch_log s) then NEW_STATE_FOUND
         else CONTINUE_WITH_NEXT_EVENTS)
  end.
Proof.
  unfold _handle_event_dispatch_side_effects.
  rewrite result_bind, after_bind.
  destruct (result current_bones_xml_after_dispatch s) as [b | x];
    [| reflexivity].
  rewrite verdict_of_bones_xml_result.
  rewrite (keeps_verdict_of_bones_xml _ count_io).
  rewrite (keeps_current_bones_xml_after_dispatch _ initial_bones_io);
    [| ignores_all].
  rewrite (keeps_current_bones_xml_after_dispatch _ log_io); [| ignores_all].
  reflexivity.
Qed.

(** ** The state loop *)

Lemma print_stats_result i s : result (_print_stats i) s = Return tt.
Proof. reflexivity. Qed.

(** One turn of the [for] loop of [_crawl_one_state]. *)
Lemma crawl_one_state_for_turn i e rest s :
  _crawl_one_state_for i (e :: rest) s =
  match result (_should_dispatch_event e) s with
  | Raise x => (Raise x, after (_should_dispatch_event e) s)
  | Return false =>
      _crawl_one_state_for (S i) rest (after (_should_dispatch_event e) s)
  | Return true =>
      match result (_dispatch_event e) (after (_should_dispatch_event e) s)
      with
      | Raise x =>
          (Raise x,
           after (_dispatch_event e) (after (_should_dispatch_event e) s))
      | Return _ =>
          match result _handle_event_dispatch_side_effects
                  (before_classifier i e s)
          with
          | Raise x => (Raise x, after_classifier i e s)
          | Return CONTINUE_WITH_NEXT_EVENTS =>
              _crawl_one_state_for (S i) rest (after_classifier i e s)
          | Return NEW_STATE_FOUND => (Return (Some false), after_classifier i e s)
          | Return TOO_MANY_PAGE_RELOAD =>
              (Raise MaxPageReload, after_classifier i e s)
          end
      end
  end.
Proof.
  unfold after_classifier, before_classifier.
  simpl. unfold bind at 1.
  rewrite (run_eq (_should_dispatch_event e) s).
  destruct (result (_should_dispatch_event e) s) as [[|] | x]; simpl;
    try reflexivity.
  set (s1 := after (_should_dispatch_event e) s).
  unfold bind at 1. rewrite (run_eq (_dispatch_event e) s1).
  destruct (result (_dispatch_event e) s1) as [r | x]; [| reflexivity].
  set (s2 := after (_dispatch_event e) s1).
  unfold bind at 1. rewrite (run_eq (_print_stats i) s2).
  rewrite print_stats_result.
  set (s3 := after (_print_stats i) s2).
  unfold bind at 1. rewrite (run_eq _handle_event_dispatch_side_effects s3).
  destruct (result _handle_event_dispatch_side_effects s3) as [[| |] | x];
    reflexivity.
Qed.

Lemma before_classifier_count i e s :
  _reloaded_base_url_count (before_classifier i e s)
  = _reloaded_base_url_count s.
Proof.
  unfold before_classifier.
  rewrite (keeps_print_stats _ count_io).
  rewrite (keeps_dispatch_event _ count_io); [| ignores_all].
  rewrite (keeps_should_dispatch_event _ count_io); [| ignores_all].
  reflexivity.
Qed.

(** A state is left as soon as a classification ends with more than
    [MAX_PAGE_RELOAD] reloads: in a state entered with at most [n] reloads,
    [n] at least [MAX_PAGE_RELOAD], at most one more is performed. *)
Lemma crawl_one_state_for_reloads n listeners :
  MAX_PAGE_RELOAD <= n ->
  forall i s,
    _reloaded_base_url_count s <= n ->
    _reloaded_base_url_count (after (_crawl_one_state_for i listeners) s)
      <= S n.
Proof.
  intros Hn. induction listeners as [| e rest IH]; intros i s Hs.
  - unfold after. simpl. lia.
  - unfold after at 1. rewrite crawl_one_state_for_turn.
    pose proof (keeps_should_dispatch_event _ count_io
                  ltac:(ignores_all) e s) as K1.
    destruct (result (_should_dispatch_event e) s) as [[|] | x]; simpl;
      [| apply IH; lia | lia].
    pose proof (keeps_dispatch_event _ count_io ltac:(ignores_all) e
                  (after (_should_dispatch_event e) s)) as K2.
    destruct (result (_dispatch_event e) _) as [r | x]; simpl; [| lia].
    pose proof (handle_event_dispatch_side_effects_reloads
                  (before_classifier i e s)) as [_ K3].
    fold (after_classifier i e s) in K3.
    rewrite before_classifier_count in K3.
    pose proof (handle_event_dispatch_side_effects_result
                  (before_classifier i e s)) as R.
    fold (after_classifier i e s) in R.
    destruct (result _handle_event_dispatch_side_effects
                (before_classifier i e s)) as [v | x]; simpl; [| lia].
    destruct v; simpl; try lia.
    apply IH.
    destruct (result current_bones_xml_after_dispatch _); [| discriminate].
    destruct (negb _); [discriminate |].
    destruct (MAX_PAGE_RELOAD <? _) eqn:E; [discriminate |].
    apply Nat.ltb_ge in E. lia.
Qed.

Lemma crawl_one_state_reloads n s :
  MAX_PAGE_RELOAD <= n ->
  _reloaded_base_url_count s <= n ->
  _reloaded_base_url_count (after _crawl_one_state s) <= S n.
Proof.
  intros Hn Hs. unfold _crawl_one_state.
  repeat
    (rewrite after_bind;
     match goal with
     | |- context [match result ?m ?t with _ => _ end] =>
         let K := fresh "K" in
         assert (K : _reloaded_base_url_count (after m t)
                     = _reloaded_base_url_count t)
           by (first [ apply keeps_browser, count_io
                     | apply keeps_cached_get_xml_bones, count_io
                     | reflexivity ]);
         destruct (result m t); [| lia]
     end).
  rewrite after_bind.
  match goal with
  | |- context [after (_crawl_one_state_for 0 ?l) ?t] =>
      pose proof (crawl_one_state_for_reloads n l Hn 0 t ltac:(lia)) as L;
      destruct (result (_crawl_one_state_for 0 l) t) as [[r |] | x];
      try exact L
  end.
  repeat
    (rewrite after_bind;
     match goal with
     | |- context [match result ?m ?t with _ => _ end] =>
         let K := fresh "K" in
         assert (K : _reloaded_base_url_count (after m t)
                     = _reloaded_base_url_count t)
           by (apply keeps_browser, count_io);
         destruct (result m t); [| lia]
     end).
  unfold after at 1. simpl. lia.
Qed.

(** ** The session *)

(** One turn of the [while] loop of [_crawl_all_states]. *)
Lemma crawl_all_states_while_turn gas completed i s :
  _crawl_all_states_while (S gas) completed i s =
  if negb completed && (i <? MAX_INITIAL_STATES)
  then
    match result _crawl_one_state s with
    | Raise MaxPageReload => (Return tt, after _crawl_one_state s)
    | Raise x => (Raise x, after _crawl_one_state s)
    | Return r =>
        _crawl_all_states_while gas r (S i) (after _crawl_one_state s)
    end
  else (Return tt, s).
Proof.
  simpl. destruct (negb completed && (i <? MAX_INITIAL_STATES));
    [| reflexivity].
  rewrite (run_eq _crawl_one_state s).
  now destruct (result _crawl_one_state s) as [r | []].
Qed.


(** Every turn of the [while] loop reloads at most once more than the
    bound allows. *)
Lemma crawl_all_states_while_reloads gas :
  forall n completed i s,
    MAX_PAGE_RELOAD <= n ->
    _reloaded_base_url_count s <= n ->
    _reloaded_base_url_count
      (after (_crawl_all_states_while gas completed i) s) <= n + gas.
Proof.
  induction gas as [| gas IH]; intros n completed i s Hn Hs.
  - unfold after. simpl.
    destruct (negb completed && (i <? MAX_INITIAL_STATES)); simpl; lia.
  - unfold after. rewrite crawl_all_states_while_turn.
    destruct (negb completed && (i <? MAX_INITIAL_STATES)); [| simpl; lia].
    pose proof (crawl_one_state_reloads n s Hn Hs) as H1.
    destruct (result _crawl_one_state s) as [r | x].
    + specialize (IH (S n) r (S i) (after _crawl_one_state s)
                     ltac:(lia) H1).
      unfold after in IH at 1. lia.
    + destruct x; simpl; lia.
Qed.

(** [_crawl_all_states] lets no [MaxPageReload] out. *)
Lemma crawl_all_states_while_catches gas :
  forall completed i s,
    result (_crawl_all_states_while gas completed i) s <> Raise MaxPageReload.
Proof.
  induction gas as [| gas IH]; intros completed i s; unfold result.
  - simpl. destruct (negb completed && (i <? MAX_INITIAL_STATES));
      simpl; discriminate.
  - rewrite crawl_all_states_while_turn.
    destruct (negb completed && (i <? MAX_INITIAL_STATES));
      [| simpl; discriminate].
    destruct (result _crawl_one_state s) as [r | x].
    + apply IH.
    + destruct x; simpl; discriminate.
Qed.

(** [crawl], by the outcome of its call of [chrome.get_url()]. *)
Lemma crawl_run chrome url s :
  crawl chrome url s =
  match get_url chrome with
  | (Raise x, b) => (Raise x, set_chrome (Some b) s)
  | (Return home, b) =>
      let s1 := set_url home (set_chrome (Some b) s) in
      match result _crawl_all_states s1 with
      | Raise ChromeInterfaceException =>
          (Return tt,
           set_om_out
             (om_out (after _crawl_all_states s1) ++
              [MsgInterfaceException url ChromeInterfaceException])
             (after _crawl_all_states s1))
      | Raise x => (Raise x, after _crawl_all_states s1)
      | Return _ => (Return tt, after _crawl_all_states s1)
      end
  end.
Proof.
  unfold crawl, bind, modify, chrome_call, try_except, try_except_else.
  simpl. destruct (get_url chrome) as [[home | x] b]; [| reflexivity].
  simpl. rewrite (run_eq _crawl_all_states).
  destruct (result _crawl_all_states _) as [[] | []]; reflexivity.
Qed.

(** Once [chrome.get_url()] has answered, [crawl] lets neither a
    [ChromeInterfaceException] nor a [MaxPageReload] out. *)
Lemma crawl_catches chrome url s home b :
  get_url chrome = (Return home, b) ->
  result (crawl chrome url) s <> Raise ChromeInterfaceException /\
  result (crawl chrome url) s <> Raise MaxPageReload.
Proof.
  intros H. unfold result. rewrite crawl_run, H. simpl.
  pose proof (crawl_all_states_while_catches MAX_INITIAL_STATES false 0
                (set_url home (set_chrome (Some b) s))) as C.
  fold _crawl_all_states in C.
  destruct (result _crawl_all_states _) as [[] | x]; simpl;
    [split; discriminate |].
  destruct x; simpl; split; try discriminate; congruence.
Qed.

(** A session performs at most [MAX_PAGE_RELOAD + MAX_INITIAL_STATES]
    reloads. *)
Lemma crawl_reloads chrome url s :
  _reloaded_base_url_count s <= MAX_PAGE_RELOAD ->
  _reloaded_base_url_count (after (crawl chrome url) s)
    <= MAX_PAGE_RELOAD + MAX_INITIAL_STATES.
Proof.
  intros Hs. unfold after at 1. rewrite crawl_run.
  destruct (get_url chrome) as [[home | x] b]; simpl;
    [| unfold MAX_PAGE_RELOAD in *; lia].
  pose proof (crawl_all_states_while_reloads MAX_INITIAL_STATES
                MAX_PAGE_RELOAD false 0
                (set_url home (set_chrome (Some b) s))
                (le_n _) Hs) as H.
  fold _crawl_all_states in H.
  destruct (result _crawl_all_states _) as [[] | x]; simpl; [exact H |].
  destruct x; simpl; exact H.
Qed.

(** ** The properties of the classifier and of the session *)

(** C3, as amended: (1) a classification performs at most one reload; (2)
    it returns [TOO_MANY_PAGE_RELOAD] exactly when the fingerprint check
    passed and more than [MAX_PAGE_RELOAD] reloads have been performed, the
    one of this classification included; (3) it returns
    [CONTINUE_WITH_NEXT_EVENTS] only when at most [MAX_PAGE_RELOAD] reloads
    have been performed; (4) a session performs at most
    [MAX_PAGE_RELOAD + MAX_INITIAL_STATES] reloads. *)
Theorem reload_bound :
  (forall s,
     _reloaded_base_url_count (after _handle_event_dispatch_side_effects s)
       <= S (_reloaded_base_url_count s)) /\
  (forall s b,
     result current_bones_xml_after_dispatch s = Return b ->
     (result _handle_event_dispatch_side_effects s
        = Return TOO_MANY_PAGE_RELOAD
      <->
      _bones_xml_are_equal (_initial_bones_xml s) b = true /\
      MAX_PAGE_RELOAD <
        _reloaded_base_url_count
          (after _handle_event_dispatch_side_effects s))) /\
  (forall s,
     result _handle_event_dispatch_side_effects s
       = Return CONTINUE_WITH_NEXT_EVENTS ->
     _reloaded_base_url_count (after _handle_event_dispatch_side_effects s)
       <= MAX_PAGE_RELOAD) /\
  (forall chrome url s,
     _reloaded_base_url_count s <= MAX_PAGE_RELOAD ->
     _reloaded_base_url_count (after (crawl chrome url) s)
       <= MAX_PAGE_RELOAD + MAX_INITIAL_STATES).
Proof.
  split; [| split; [| split]].
  - intros s. apply handle_event_dispatch_side_effects_reloads.
  - intros s b Hb.
    rewrite handle_event_dispatch_side_effects_result, Hb.
    destruct (_bones_xml_are_equal _ _); simpl;
      [| split; [discriminate | intros [H _]; discriminate]].
    destruct (MAX_PAGE_RELOAD <? _) eqn:E.
    + apply Nat.ltb_lt in E. now split.
    + apply Nat.ltb_ge in E.
      destruct (all_failed _); split; try discriminate; intros [_ H]; lia.
  - intros s Hv.
    rewrite handle_event_dispatch_side_effects_result in Hv.
    destruct (result current_bones_xml_after_dispatch s) as [b | x];
      [| discriminate].
    destruct (negb _); [discriminate |].
    destruct (MAX_PAGE_RELOAD <? _) eqn:E; [discriminate |].
    now apply Nat.ltb_ge in E.
  - apply crawl_reloads.
Qed.

(** C5, as amended: (1) when the fingerprint of the DOM after the dispatch
    is not fuzzy-equal to the initial fingerprint, the verdict is
    [NEW_STATE_FOUND]; (2) when it is fuzzy-equal, the verdict is
    [NEW_STATE_FOUND] exactly when the count of reloads does not exceed
    [MAX_PAGE_RELOAD] and the failure check of the dispatch log fires; (3)
    fingerprints whose similarity is the threshold itself are fuzzy-equal;
    (4) on a [NEW_STATE_FOUND] verdict [_crawl_one_state]'s loop returns
    [False] at once, whatever listeners remain, with the crawler object as
    the classifier left it. *)
Theorem new_state_verdict :
  (forall s b,
     result current_bones_xml_after_dispatch s = Return b ->
     _bones_xml_are_equal (_initial_bones_xml s) b = false ->
     result _handle_event_dispatch_side_effects s = Return NEW_STATE_FOUND) /\
  (forall s b,
     result current_bones_xml_after_dispatch s = Return b ->
     _bones_xml_are_equal (_initial_bones_xml s) b = true ->
     (result _handle_event_dispatch_side_effects s = Return NEW_STATE_FOUND
      <->
      _reloaded_base_url_count (after _handle_event_dispatch_side_effects s)
        <= MAX_PAGE_RELOAD /\
      all_failed (_event_dispatch_log s) = true)) /\
  (forall a b,
     (similarity a b == EQUAL_RATIO_AFTER_BACK)%Q ->
     _bones_xml_are_equal a b = true) /\
  (forall i e rest s r,
     result (_should_dispatch_event e) s = Return true ->
     result (_dispatch_event e) (after (_should_dispatch_event e) s)
       = Return r ->
     result _handle_event_dispatch_side_effects (before_classifier i e s)
       = Return NEW_STATE_FOUND ->
     _crawl_one_state_for i (e :: rest) s
       = (Return (Some false), after_classifier i e s)).
Proof.
  split; [| split; [| split]].
  - intros s b Hb He.
    now rewrite handle_event_dispatch_side_effects_result, Hb, He.
  - intros s b Hb He.
    rewrite handle_event_dispatch_side_effects_result, Hb, He. simpl.
    destruct (MAX_PAGE_RELOAD <? _) eqn:E.
    + apply Nat.ltb_lt in E. split; [discriminate | lia].
    + apply Nat.ltb_ge in E.
      destruct (all_failed _); split; try easy; intros [_ H]; discriminate.
  - intros a b H. unfold _bones_xml_are_equal, fuzzy_equal.
    apply Qle_bool_iff. rewrite H. apply Qle_refl.
  - intros i e rest s r H1 H2 H3.
    now rewrite crawl_one_state_for_turn, H1, H2, H3.
Qed.

Lemma all_failed_short units :
  length units < MAX_CONSECUTIVE_EVENT_DISPATCH_ERRORS ->
  all_FAILED units -> all_failed units = true.
Proof.
  intros Hl Ha. unfold all_failed.
  rewrite firstn_all2 by lia.
  rewrite forallb_forall. intros st Hin.
  apply in_map_iff in Hin. destruct Hin as (u & <- & Hu).
  unfold all_FAILED in Ha. rewrite Forall_forall in Ha.
  apply dispatch_state_eqb_FAILED. now apply Ha.
Qed.

(** C10, the failure check on a short log: (1) when the dispatch log holds
    fewer than [MAX_CONSECUTIVE_EVENT_DISPATCH_ERRORS] entries, all of them
    [FAILED], the classifier never returns [CONTINUE_WITH_NEXT_EVENTS], and
    with at most [MAX_PAGE_RELOAD] reloads every verdict it returns is
    [NEW_STATE_FOUND]; (2) when the first listener of a session with an
    empty log is of a dispatchable type and its dispatch fails with
    [EventException] or [EventTimeout], the loop of [_crawl_one_state] ends
    with that listener: the log is the one [FAILED] entry, and if the loop
    returns at all it returns [False]. *)
Theorem short_log_streak :
  (forall s,
     length (_event_dispatch_log s) < MAX_CONSECUTIVE_EVENT_DISPATCH_ERRORS ->
     all_FAILED (_event_dispatch_log s) ->
     result _handle_event_dispatch_side_effects s
       <> Return CONTINUE_WITH_NEXT_EVENTS /\
     (forall v,
        _reloaded_base_url_count
          (after _handle_event_dispatch_side_effects s) <= MAX_PAGE_RELOAD ->
        result _handle_event_dispatch_side_effects s = Return v ->
        v = NEW_STATE_FOUND)) /\
  (forall i e rest s b,
     _chrome s = Some b ->
     _event_dispatch_log s = [] ->
     _reloaded_base_url_count s < MAX_PAGE_RELOAD ->
     in_events_to_dispatch (event_type e) = true ->
     fst (dispatch_js_event (selector e) (event_type e) b)
       = Raise EventException \/
     fst (dispatch_js_event (selector e) (event_type e) b)
       = Raise EventTimeout ->
     _event_dispatch_log (after (_crawl_one_state_for i (e :: rest)) s)
       = [mkUnit e FAILED] /\
     (forall r,
        result (_crawl_one_state_for i (e :: rest)) s = Return r ->
        r = Some false)).
Proof.
  split.
  - intros s Hl Ha.
    rewrite handle_event_dispatch_side_effects_result.
    destruct (result current_bones_xml_after_dispatch s) as [b | x];
      [| split; [discriminate | intros v _ H; discriminate]].
    rewrite (all_failed_short _ Hl Ha).
    destruct (negb _); [split; [discriminate | intros v _ H; congruence] |].
    destruct (MAX_PAGE_RELOAD <? _) eqn:E;
      (split; [discriminate | intros v Hn H]); [| congruence].
    apply Nat.ltb_lt in E. lia.
  - intros i e rest s b Hb Hlog Hn Hty Hx.
    assert (S1 : _should_dispatch_event e s = (Return true, s)).
    { unfold _should_dispatch_event. rewrite Hty. simpl.
      unfold bind, gets. now rewrite Hlog. }
    assert (R1 : result (_should_dispatch_event e) s = Return true)
      by (unfold result; now rewrite S1).
    assert (A1 : after (_should_dispatch_event e) s = s)
      by (unfold after; now rewrite S1).
    pose proof (dispatch_event_cases e s b Hb) as D.
    assert (D' : result (_dispatch_event e) s = Return false /\
                 _event_dispatch_log (after (_dispatch_event e) s)
                   = [mkUnit e FAILED]).
    { rewrite Hlog in D. destruct Hx as [Hx | Hx]; rewrite Hx in D; exact D. }
    clear D. destruct D' as [R2 L2].
    assert (L3 : _event_dispatch_log (before_classifier i e s)
                 = [mkUnit e FAILED]).
    { unfold before_classifier. rewrite A1.
      rewrite (keeps_print_stats _ log_io). exact L2. }
    assert (L4 : _event_dispatch_log (after_classifier i e s)
                 = [mkUnit e FAILED]).
    { unfold after_classifier.
      rewrite (keeps_handle_event_dispatch_side_effects _ log_io);
        [exact L3 | ignores_all]. }
    pose proof (handle_event_dispatch_side_effects_result
                  (before_classifier i e s)) as V.
    pose proof (handle_event_dispatch_side_effects_reloads
                  (before_classifier i e s)) as [_ C].
    rewrite before_classifier_count in C.
    fold (after_classifier i e s) in V, C.
    assert (E : (MAX_PAGE_RELOAD <?
                 _reloaded_base_url_count (after_classifier i e s)) = false)
      by (apply Nat.ltb_ge; lia).
    rewrite E, L3 in V. clear E.
    unfold after, result. rewrite crawl_one_state_for_turn.
    rewrite R1, A1, R2.
    destruct (result _handle_event_dispatch_side_effects
                (before_classifier i e s)) as [v | x].
    + destruct (result current_bones_xml_after_dispatch _); [| discriminate].
      destruct (negb _); inversion V; subst; simpl; split;
        solve [exact L4 | intros r H; now inversion H].
    + simpl. split; [exact L4 | intros r H; discriminate].
Qed.

(** C9, as amended: the home URL of a session is what the browser answers
    to the [get_url] call at the start of [crawl], whatever the [url]
    argument is: (1) when that call answers [home], [_url] is [home] when
    [crawl] is over; (2) nothing in [_crawl_all_states] assigns [_url];
    (3) [_reload_base_url] loads [_url]; (4) the [url] argument shows in
    the debug output only: two calls that differ in it have the same
    outcome and leave the same crawler object, the debug output apart. *)
Theorem home_url_is_browser_url :
  (forall chrome url s home b,
     get_url chrome = (Return home, b) ->
     _url (after (crawl chrome url) s) = home) /\
  (forall s, _url (after _crawl_all_states s) = _url s) /\
  (forall s b,
     _chrome s = Some b ->
     _chrome (after _reload_base_url s) =
     match load_url (_url s) b with
     | (Return _, b1) => Some (snd (wait_for_load None b1))
     | (Raise _, b1) => Some b1
     end) /\
  (forall chrome url1 url2 s,
     result (crawl chrome url1) s = result (crawl chrome url2) s /\
     set_om_out [] (after (crawl chrome url1) s)
       = set_om_out [] (after (crawl chrome url2) s)).
Proof.
  split; [| split; [| split]].
  - intros chrome url s home b H. unfold after at 1.
    rewrite crawl_run, H.
    pose proof (url_constant (set_url home (set_chrome (Some b) s))) as K.
    simpl in *.
    destruct (result _crawl_all_states _) as [[] | x]; simpl; [exact K |].
    destruct x; exact K.
  - apply url_constant.
  - intros s b Hb.
    unfold after, _reload_base_url, bind, modify, gets, chrome_call.
    simpl. rewrite Hb.
    destruct (load_url (_url s) b) as [[[] | x] b1]; simpl; [| reflexivity].
    now destruct (wait_for_load None b1).
  - intros chrome url1 url2 s. unfold result, after.
    rewrite !crawl_run.
    destruct (get_url chrome) as [[home | x] b]; [| now split].
    simpl.
    destruct (result _crawl_all_states _) as [[] | x]; [now split |].
    destruct x; now split.
Qed.

(** * Further properties *)

(** ** The filter, completely *)

Lemma should_dispatch_event_run e s :
  _should_dispatch_event e s =
  if accepts e (_event_dispatch_log s) then (Return true, s)
  else
    (Return false,
     set_event_dispatch_log (_event_dispatch_log s ++ [mkUnit e IGNORED])
       (if in_events_to_dispatch (event_type e)
        then set_om_out
               (om_out s ++
                [MsgAlreadySent (event_type e) (selector e) (_url s)
                   (_debugging_id s)]) s
        else s)).
Proof.
  unfold _should_dispatch_event, accepts.
  destruct (in_events_to_dispatch (event_type e)); simpl; [| reflexivity].
  unfold bind, gets. rewrite should_dispatch_event_for_first.
  destruct (first_with_key e (_event_dispatch_log s)) as [u |];
    [| reflexivity].
  now destruct (dispatch_state_eqb (state u) FAILED).
Qed.

(** X1, the decision of [_should_dispatch_event]: it never raises; it
    returns [True] exactly when the type of the candidate is in
    [EVENTS_TO_DISPATCH] and the log has no entry with its key or the
    earliest such entry is [FAILED]; when it returns [True] the crawler
    object is unchanged, and when it returns [False] exactly one [IGNORED]
    entry for the candidate is appended to the log. *)
Theorem should_dispatch_event_decision e s :
  result (_should_dispatch_event e) s
    = Return (accepts e (_event_dispatch_log s)) /\
  (accepts e (_event_dispatch_log s) = true ->
   after (_should_dispatch_event e) s = s) /\
  (accepts e (_event_dispatch_log s) = false ->
   _event_dispatch_log (after (_should_dispatch_event e) s)
     = (_event_dispatch_log s ++ [mkUnit e IGNORED])%list).
Proof.
  unfold result, after. rewrite should_dispatch_event_run.
  destruct (accepts e (_event_dispatch_log s)); simpl.
  - repeat split; solve [reflexivity | discriminate].
  - repeat split; solve [reflexivity | discriminate].
Qed.

(** ** The dispatch log is append-only *)

Lemma log_extends_refl s : log_extends s s.
Proof. exists []. now rewrite app_nil_r. Qed.

Lemma log_extends_trans s1 s2 s3 :
  log_extends s1 s2 -> log_extends s2 s3 -> log_extends s1 s3.
Proof.
  intros [l1 H1] [l2 H2]. exists (l1 ++ l2)%list.
  now rewrite H2, H1, app_assoc.
Qed.

Lemma log_extends_same s s' :
  _event_dispatch_log s' = _event_dispatch_log s -> log_extends s s'.
Proof. intros H. exists []. now rewrite app_nil_r. Qed.

Lemma keeps_appends {A} (m : Method B A) :
  keeps _event_dispatch_log m -> appends_only m.
Proof. intros H s. apply log_extends_same, H. Qed.

Lemma appends_bind {A C} (m : Method B A) (k : A -> Method B C) :
  appends_only m -> (forall a, appends_only (k a)) ->
  appends_only (bind m k).
Proof.
  intros Hm Hk s. rewrite after_bind.
  destruct (result m s) as [a | x]; [| apply Hm].
  eapply log_extends_trans; [apply Hm | apply Hk].
Qed.

(** The log after [_dispatch_event]: one entry more when it returns, none
    when it raises. *)
Lemma dispatch_event_log e s :
  match result (_dispatch_event e) s with
  | Return r =>
      _event_dispatch_log (after (_dispatch_event e) s) =
      (_event_dispatch_log s
       ++ [mkUnit e (if r then SUCCESS else FAILED)])%list
  | Raise _ =>
      _event_dispatch_log (after (_dispatch_event e) s)
      = _event_dispatch_log s
  end.
Proof.
  destruct (_chrome s) as [b |] eqn:Hb.
  - pose proof (dispatch_event_cases e s b Hb) as D.
    destruct (fst (dispatch_js_event (selector e) (event_type e) b))
      as [[] | x].
    + destruct D as [-> D]. exact D.
    + destruct x; destruct D as [-> D]; exact D.
  - unfold result, after, _dispatch_event.
    unfold bind, gets, om_out_debug, modify, try_except_else, chrome_call.
    simpl. now rewrite Hb.
Qed.

Lemma dispatch_event_appends e : appends_only (B := B) (_dispatch_event e).
Proof.
  intros s. pose proof (dispatch_event_log e s) as D.
  destruct (result (_dispatch_event e) s) as [r | x].
  - eexists. exact D.
  - now apply log_extends_same.
Qed.

Lemma should_dispatch_event_appends e :
  appends_only (B := B) (_should_dispatch_event e).
Proof.
  intros s. unfold after. rewrite should_dispatch_event_run.
  destruct (accepts e (_event_dispatch_log s)); simpl.
  - apply log_extends_refl.
  - eexists. reflexivity.
Qed.

(** The log after the loop of [_crawl_one_state]: one entry for each
    listener the loop came to decide, in the order of the listeners. *)
Lemma crawl_one_state_for_log listeners :
  forall i s,
  exists new,
    _event_dispatch_log (after (_crawl_one_state_for i listeners) s) =
      (_event_dispatch_log s ++ new)%list /\
    map event new = firstn (length new) listeners /\
    (result (_crawl_one_state_for i listeners) s = Return None ->
     map event new = listeners).
Proof.
  induction listeners as [| e rest IH]; intros i s.
  - exists []. unfold after. simpl. rewrite app_nil_r. auto.
  - pose proof (should_dispatch_event_run e s) as R.
    assert (R1 : result (_should_dispatch_event e) s
                 = Return (accepts e (_event_dispatch_log s)))
      by (unfold result; rewrite R;
          now destruct (accepts e (_event_dispatch_log s))).
    unfold after at 1, result at 1. rewrite crawl_one_state_for_turn, R1.
    destruct (accepts e (_event_dispatch_log s)) eqn:Acc.
    + (* dispatched *)
      assert (A1 : after (_should_dispatch_event e) s = s)
        by (unfold after; now rewrite R).
      rewrite A1.
      pose proof (dispatch_event_log e s) as D.
      destruct (result (_dispatch_event e) s) as [r | x].
      * assert (L3 : _event_dispatch_log (after_classifier i e s) =
                     (_event_dispatch_log s
                      ++ [mkUnit e (if r then SUCCESS else FAILED)])%list).
        { unfold after_classifier, before_classifier. rewrite A1.
          rewrite (keeps_handle_event_dispatch_side_effects _ log_io);
            [| ignores_all].
          rewrite (keeps_print_stats _ log_io). exact D. }
        destruct (result _handle_event_dispatch_side_effects
                    (before_classifier i e s)) as [[| |] | x]; simpl.
        -- eexists. split; [exact L3 |]. split; [reflexivity | discriminate].
        -- eexists. split; [exact L3 |]. split; [reflexivity | discriminate].
        -- destruct (IH (S i) (after_classifier i e s))
             as (new & H1 & H2 & H3).
           exists (mkUnit e (if r then SUCCESS else FAILED) :: new).
           unfold after, result in H1, H3. rewrite H1, L3.
           rewrite <- app_assoc. simpl. split; [reflexivity |].
           split; [now rewrite H2 | intros H; now rewrite (H3 H)].
        -- eexists. split; [exact L3 |]. split; [reflexivity | discriminate].
      * simpl. exists []. rewrite app_nil_r. split; [exact D |].
        split; [reflexivity | discriminate].
    + (* ignored *)
      set (s1 := after (_should_dispatch_event e) s) in *.
      assert (L1 : _event_dispatch_log s1 =
                   (_event_dispatch_log s ++ [mkUnit e IGNORED])%list)
        by (subst s1; unfold after; now rewrite R).
      destruct (IH (S i) s1) as (new & H1 & H2 & H3).
      exists (mkUnit e IGNORED :: new).
      unfold after, result in H1, H3. rewrite H1, L1.
      rewrite <- app_assoc. simpl. split; [reflexivity |].
      split; [now rewrite H2 | intros H; now rewrite (H3 H)].
Qed.

Lemma crawl_one_state_for_appends i listeners :
  appends_only (B := B) (_crawl_one_state_for i listeners).
Proof.
  intros s. destruct (crawl_one_state_for_log listeners i s) as (new & H & _).
  now exists new.
Qed.

Lemma browser_appends {A} (op : B -> outcome A * B) :
  appends_only (chrome_call op).
Proof. apply keeps_appends, keeps_browser, log_io. Qed.

Lemma crawl_one_state_appends : appends_only (B := B) _crawl_one_state.
Proof.
  unfold _crawl_one_state.
  apply appends_bind; [apply browser_appends | intros d].
  apply appends_bind;
    [apply keeps_appends, keeps_modify; reflexivity | intros _].
  apply appends_bind; [apply keeps_appends, keeps_gets | intros d'].
  apply appends_bind;
    [apply keeps_appends, keeps_cached_get_xml_bones, log_io | intros b].
  apply appends_bind;
    [apply keeps_appends, keeps_modify; reflexivity | intros _].
  apply appends_bind; [apply browser_appends | intros ls].
  apply appends_bind; [apply crawl_one_state_for_appends | intros r].
  destruct r; [apply keeps_appends, keeps_ret |].
  apply appends_bind; [apply browser_appends | intros _].
  apply appends_bind; [apply browser_appends | intros _].
  apply keeps_appends, keeps_ret.
Qed.

Lemma crawl_all_states_while_appends gas :
  forall completed i, appends_only (B := B) (_crawl_all_states_while gas completed i).
Proof.
  induction gas as [| gas IH]; intros completed i s; unfold after.
  - simpl. destruct (negb completed && (i <? MAX_INITIAL_STATES));
      apply log_extends_refl.
  - rewrite crawl_all_states_while_turn.
    destruct (negb completed && (i <? MAX_INITIAL_STATES));
      [| apply log_extends_refl].
    pose proof (crawl_one_state_appends s) as H1.
    destruct (result _crawl_one_state s) as [r | x].
    + eapply log_extends_trans; [exact H1 | apply IH].
    + destruct x; exact H1.
Qed.

(** X2, the dispatch log is append-only over a whole [crawl]: whatever the
    browser does and however [crawl] ends, the log it leaves is the log it
    found with entries appended. *)
Theorem crawl_appends_only (chrome : B) url :
  appends_only (crawl chrome url).
Proof.
  intros s. unfold after. rewrite crawl_run.
  destruct (get_url chrome) as [[home | x] b]; simpl;
    [| now apply log_extends_same].
  pose proof (crawl_all_states_while_appends MAX_INITIAL_STATES false 0
                (set_url home (set_chrome (Some b) s))) as H.
  fold _crawl_all_states in H.
  destruct (result _crawl_all_states _) as [[] | x]; [exact H |].
  destruct x; exact H.
Qed.

(** X3, one log entry per listener: the loop of [_crawl_one_state] appends
    to the log one entry for each listener it came to decide, in the order
    of the listeners, and when it runs to the end of the listeners the
    events of the new entries are the listeners. *)
Theorem crawl_one_state_for_one_entry_each i listeners s :
  exists new,
    _event_dispatch_log (after (_crawl_one_state_for i listeners) s) =
      (_event_dispatch_log s ++ new)%list /\
    map event new = firstn (length new) listeners /\
    (result (_crawl_one_state_for i listeners) s = Return None ->
     map event new = listeners).
Proof. apply crawl_one_state_for_log. Qed.

(** ** The counters and the statistics *)

Lemma error_count_le_count (units : list EventDispatchLogUnit) :
  length (filter (fun i => dispatch_state_eqb (state i) FAILED) units)
  <= length (filter (fun i => negb (dispatch_state_eqb (state i) IGNORED))
               units) /\
  length (filter (fun i => negb (dispatch_state_eqb (state i) IGNORED))
            units)
  <= length units.
Proof.
  induction units as [| u rest [IH1 IH2]]; simpl; [lia |].
  destruct (state u);
    cbv [dispatch_state_eqb dispatch_state_code Nat.eqb negb] in *;
    simpl; lia.
Qed.

Lemma counts_of_log s s' :
  _event_dispatch_log s' = _event_dispatch_log s ->
  _get_total_dispatch_count s' = _get_total_dispatch_count s /\
  _get_total_dispatch_error_count s' = _get_total_dispatch_error_count s.
Proof.
  intros H. unfold _get_total_dispatch_count, _get_total_dispatch_error_count.
  now rewrite H.
Qed.

Lemma counts_of_appended s s' u :
  _event_dispatch_log s' = (_event_dispatch_log s ++ [u])%list ->
  _get_total_dispatch_count s' =
    _get_total_dispatch_count s
    + (if dispatch_state_eqb (state u) IGNORED then 0 else 1) /\
  _get_total_dispatch_error_count s' =
    _get_total_dispatch_error_count s
    + (if dispatch_state_eqb (state u) FAILED then 1 else 0).
Proof.
  intros H. unfold _get_total_dispatch_count, _get_total_dispatch_error_count.
  rewrite H, !filter_app, !length_app. simpl.
  destruct (dispatch_state_eqb (state u) IGNORED),
           (dispatch_state_eqb (state u) FAILED); simpl; lia.
Qed.

(** X4, the two counters of [_print_stats]: the error count never exceeds
    the dispatch count, which never exceeds the length of the log; a
    [_dispatch_event] that returns adds one to the dispatch count, and one
    to the error count exactly when it returns [False]; a
    [_should_dispatch_event] changes neither, although it may append an
    [IGNORED] entry. *)
Theorem dispatch_counters s :
  _get_total_dispatch_error_count s <= _get_total_dispatch_count s /\
  _get_total_dispatch_count s <= length (_event_dispatch_log s) /\
  (forall e r,
     result (_dispatch_event e) s = Return r ->
     _get_total_dispatch_count (after (_dispatch_event e) s)
       = S (_get_total_dispatch_count s) /\
     _get_total_dispatch_error_count (after (_dispatch_event e) s)
       = _get_total_dispatch_error_count s + (if r then 0 else 1)) /\
  (forall e,
     _get_total_dispatch_count (after (_should_dispatch_event e) s)
       = _get_total_dispatch_count s /\
     _get_total_dispatch_error_count (after (_should_dispatch_event e) s)
       = _get_total_dispatch_error_count s).
Proof.
  destruct (error_count_le_count (_event_dispatch_log s)) as [H1 H2].
  split; [exact H1 |]. split; [exact H2 |]. split.
  - intros e r Hr. pose proof (dispatch_event_log e s) as D.
    rewrite Hr in D. apply counts_of_appended in D.
    destruct r; simpl in D; destruct D as [D1 D2]; split; lia.
  - intros e. unfold after. rewrite should_dispatch_event_run.
    destruct (accepts e (_event_dispatch_log s)); simpl; [auto |].
    match goal with
    | |- context [_get_total_dispatch_count ?t] =>
        assert (Hf : _event_dispatch_log t =
                     (_event_dispatch_log s ++ [mkUnit e IGNORED])%list)
          by (now destruct (in_events_to_dispatch (event_type e)));
        apply counts_of_appended in Hf
    end.
    simpl in Hf. destruct Hf as [D1 D2]. split; lia.
Qed.

Lemma tally_get_count_event_type ty ty' d :
  tally_get ty (count_event_type ty' d) =
  tally_get ty d + (if String.eqb ty ty' then 1 else 0).
Proof.
  unfold tally_get.
  induction d as [| [k n] rest IH]; simpl.
  - destruct (String.eqb ty ty'); reflexivity.
  - destruct (String.eqb_spec ty' k) as [-> | Hk]; simpl.
    + destruct (String.eqb ty k); simpl; lia.
    + destruct (String.eqb_spec ty k) as [-> | Hn]; simpl; [| exact IH].
      destruct (String.eqb_spec k ty') as [E | _]; [| lia].
      now subst.
Qed.

Lemma tally_total_count_event_type ty d :
  tally_total (count_event_type ty d) = S (tally_total d).
Proof.
  induction d as [| [k n] rest IH]; simpl; [reflexivity |].
  destruct (String.eqb ty k); simpl; lia.
Qed.

Lemma event_types_fold units :
  forall d,
    tally_total
      (fold_left (fun d u => count_event_type (event_type (event u)) d)
         units d)
    = tally_total d + length units /\
    (forall ty,
       tally_get ty
         (fold_left (fun d u => count_event_type (event_type (event u)) d)
            units d)
       = tally_get ty d
         + length (filter (fun u => String.eqb ty (event_type (event u)))
                     units)).
Proof.
  induction units as [| u rest IH]; intros d; simpl.
  - split; [lia | intros ty; lia].
  - destruct (IH (count_event_type (event_type (event u)) d)) as [H1 H2].
    split.
    + rewrite H1, tally_total_count_event_type. lia.
    + intros ty. rewrite H2, tally_get_count_event_type.
      destruct (String.eqb ty (event_type (event u))); simpl; lia.
Qed.

(** X5, the statistics of [_print_stats]: it changes nothing but the debug
    output, to which it adds one message; the [event_types] dictionary of
    that message holds, for every event type, the number of log entries of
    that type, the [IGNORED] ones included, so its counts add up to the
    length of the log, which is at least the dispatch count reported in the
    same message. *)
Theorem print_stats_report i s :
  after (_print_stats i) s =
    set_om_out
      (om_out s ++
       [MsgProcessing i (_url s) (_get_total_dispatch_error_count s)
          (_get_total_dispatch_count s)
          (event_types_of (_event_dispatch_log s)) (_debugging_id s)]) s /\
  (forall ty,
     tally_get ty (event_types_of (_event_dispatch_log s)) =
     length (filter (fun u => String.eqb ty (event_type (event u)))
               (_event_dispatch_log s))) /\
  tally_total (event_types_of (_event_dispatch_log s))
    = length (_event_dispatch_log s) /\
  _get_total_dispatch_count s
    <= tally_total (event_types_of (_event_dispatch_log s)).
Proof.
  destruct (event_types_fold (_event_dispatch_log s) []) as [H1 H2].
  fold (event_types_of (_event_dispatch_log s)) in H1, H2.
  split; [reflexivity |]. split; [exact H2 |]. split; [exact H1 |].
  rewrite H1. apply error_count_le_count.
Qed.

(** ** The fingerprint cache over a session *)

Lemma lru_assoc_remove k k' l :
  LRU.assoc k (LRU.remove k' l) =
  if String.eqb k k' then None else LRU.assoc k l.
Proof.
  induction l as [| [k0 v0] l IH]; simpl.
  - now destruct (String.eqb k k').
  - destruct (String.eqb_spec k' k0) as [-> | H0]; simpl.
    + rewrite IH. now destruct (String.eqb k k0).
    + rewrite IH. destruct (String.eqb_spec k k') as [-> | H1].
      * destruct (String.eqb_spec k' k0); [contradiction | reflexivity].
      * reflexivity.
Qed.

Lemma lru_assoc_firstn n k l v :
  LRU.assoc k (firstn n l) = Some v -> LRU.assoc k l = Some v.
Proof.
  revert n. induction l as [| [k0 v0] l IH]; intros [| n]; simpl;
    try discriminate.
  destruct (String.eqb k k0); [auto | apply IH].
Qed.

Lemma cached_get_xml_bones_coherent d s :
  cache_coherent s ->
  result (_cached_get_xml_bones d) s = Return (get_xml_bones d) /\
  cache_coherent (after (_cached_get_xml_bones d) s).
Proof.
  intros Hc. unfold result, after, _cached_get_xml_bones, LRU.getitem.
  destruct (LRU.assoc d (LRU.items (_cached_xml_bones s))) as [v |] eqn:E;
    simpl.
  - pose proof (Hc d v E) as ->. split; [reflexivity |].
    intros k w. simpl. rewrite lru_assoc_remove.
    destruct (String.eqb_spec k d) as [-> | Hk]; [congruence | apply Hc].
  - split; [reflexivity |].
    intros k w. unfold LRU.setitem. simpl. intros H.
    apply lru_assoc_firstn in H. simpl in H. rewrite lru_assoc_remove in H.
    destruct (String.eqb_spec k d) as [-> | Hk]; [congruence | now apply Hc].
Qed.

Lemma cached_get_xml_bones_ok d :
  preserves (B := B) cache_ok (_cached_get_xml_bones d).
Proof.
  intros s [Hb Hc]. split.
  - now apply cached_get_xml_bones_bounded.
  - now apply cached_get_xml_bones_coherent.
Qed.

Lemma preserves_bind {A C} (P : ChromeCrawlerJS B -> Prop)
    (m : Method B A) (k : A -> Method B C) :
  preserves P m -> (forall a, preserves P (k a)) -> preserves P (bind m k).
Proof.
  intros Hm Hk s Hs. rewrite after_bind.
  destruct (result m s) as [a | x]; [apply Hk |]; now apply Hm.
Qed.

Lemma preserves_try_except_else {A C} (P : ChromeCrawlerJS B -> Prop)
    (m : Method B A) handler (els : A -> Method B C) :
  preserves P m ->
  (forall x h, handler x = Some h -> preserves P h) ->
  (forall a, preserves P (els a)) ->
  preserves P (try_except_else m handler els).
Proof.
  intros Hm Hh He s Hs. unfold after, try_except_else.
  specialize (Hm s Hs). unfold after in Hm.
  destruct (m s) as [[a | x] s1]; simpl in *.
  - now apply He.
  - destruct (handler x) as [h |] eqn:E; simpl; [| exact Hm].
    now apply (Hh x h E).
Qed.

Lemma cache_kept_ok {A} (m : Method B A) :
  keeps _cached_xml_bones m -> preserves cache_ok m.
Proof.
  intros H s. unfold cache_ok, cache_bounded, cache_coherent.
  now rewrite (H s).
Qed.

Ltac cache_kept :=
  apply cache_kept_ok;
  let Hb := fresh in
  let Ho := fresh in
  assert (Hb : ignores (B := B) set_chrome _cached_xml_bones)
    by (intros ? ?; reflexivity);
  assert (Ho : ignores (B := B) set_om_out _cached_xml_bones)
    by (intros ? ?; reflexivity);
  keeps_auto.

Lemma browser_cache_ok {A} (op : B -> outcome A * B) :
  preserves cache_ok (chrome_call op).
Proof. cache_kept. Qed.

Lemma conditional_wait_for_load_cache_ok :
  preserves (B := B) cache_ok _conditional_wait_for_load.
Proof. unfold _conditional_wait_for_load. cache_kept. Qed.

Lemma reload_base_url_cache_ok :
  preserves (B := B) cache_ok _reload_base_url.
Proof. unfold _reload_base_url. cache_kept. Qed.

Lemma print_stats_cache_ok i : preserves (B := B) cache_ok (_print_stats i).
Proof. unfold _print_stats. cache_kept. Qed.

Lemma verdict_of_bones_xml_cache_ok b :
  preserves (B := B) cache_ok (verdict_of_bones_xml b).
Proof. unfold verdict_of_bones_xml. cache_kept. Qed.

Lemma should_dispatch_event_cache_ok e :
  preserves (B := B) cache_ok (_should_dispatch_event e).
Proof.
  intros s Hs. unfold after. rewrite should_dispatch_event_run.
  destruct (accepts e (_event_dispatch_log s)); simpl; [exact Hs |].
  now destruct (in_events_to_dispatch (event_type e)).
Qed.

Lemma dispatch_event_cache_ok e :
  preserves (B := B) cache_ok (_dispatch_event e).
Proof.
  apply cache_kept_ok.
  assert (Hb : ignores (B := B) set_chrome _cached_xml_bones)
    by (intros ? ?; reflexivity).
  assert (Ho : ignores (B := B) set_om_out _cached_xml_bones)
    by (intros ? ?; reflexivity).
  unfold _dispatch_event.
  apply keeps_bind; [apply keeps_gets | intros url].
  apply keeps_bind; [apply keeps_gets | intros did].
  apply keeps_bind; [now apply keeps_om_out_debug | intros _].
  apply keeps_try_except_else.
  - now apply keeps_chrome_call.
  - intros x h E. unfold log_dispatch in E.
    destruct x; inversion E; subst; keeps_auto.
  - intros _. unfold log_dispatch. keeps_auto.
Qed.

Lemma reload_and_read_dom_cache_ok :
  preserves (B := B) cache_ok reload_and_read_dom.
Proof.
  unfold reload_and_read_dom.
  apply preserves_bind; [apply conditional_wait_for_load_cache_ok | intros _].
  apply preserves_bind; [apply reload_base_url_cache_ok | intros _].
  apply browser_cache_ok.
Qed.

Lemma handle_event_dispatch_side_effects_cache_ok :
  preserves (B := B) cache_ok _handle_event_dispatch_side_effects.
Proof.
  unfold _handle_event_dispatch_side_effects.
  apply preserves_bind; [| intros b; apply verdict_of_bones_xml_cache_ok].
  unfold current_bones_xml_after_dispatch.
  apply preserves_bind; [| intros d; apply cached_get_xml_bones_ok].
  apply preserves_try_except_else.
  - apply browser_cache_ok.
  - intros x h E. destruct x; inversion E; subst.
    apply reload_and_read_dom_cache_ok.
  - intros d. apply preserves_bind; [apply browser_cache_ok | intros u].
    apply preserves_bind; [cache_kept | intros url].
    destruct (negb _); [apply reload_and_read_dom_cache_ok | cache_kept].
Qed.

Lemma crawl_one_state_for_cache_ok listeners :
  forall i, preserves (B := B) cache_ok (_crawl_one_state_for i listeners).
Proof.
  induction listeners as [| e rest IH]; intros i; simpl.
  - cache_kept.
  - apply preserves_bind; [apply should_dispatch_event_cache_ok |].
    intros should. destruct (negb should); [apply IH |].
    apply preserves_bind; [apply dispatch_event_cache_ok | intros _].
    apply preserves_bind; [apply print_stats_cache_ok | intros _].
    apply preserves_bind;
      [apply handle_event_dispatch_side_effects_cache_ok | intros v].
    destruct v; [cache_kept | cache_kept | apply IH].
Qed.

Lemma crawl_one_state_cache_ok : preserves (B := B) cache_ok _crawl_one_state.
Proof.
  unfold _crawl_one_state.
  apply preserves_bind; [apply browser_cache_ok | intros d].
  apply preserves_bind; [cache_kept | intros _].
  apply preserves_bind; [cache_kept | intros d'].
  apply preserves_bind; [apply cached_get_xml_bones_ok | intros b].
  apply preserves_bind; [cache_kept | intros _].
  apply preserves_bind; [apply browser_cache_ok | intros ls].
  apply preserves_bind; [apply crawl_one_state_for_cache_ok | intros r].
  destruct r; [cache_kept |].
  apply preserves_bind; [apply browser_cache_ok | intros _].
  apply preserves_bind; [apply browser_cache_ok | intros _].
  cache_kept.
Qed.

Lemma crawl_all_states_while_cache_ok gas :
  forall completed i,
    preserves (B := B) cache_ok (_crawl_all_states_while gas completed i).
Proof.
  induction gas as [| gas IH]; intros completed i s Hs; unfold after.
  - simpl. now destruct (negb completed && (i <? MAX_INITIAL_STATES)).
  - rewrite crawl_all_states_while_turn.
    destruct (negb completed && (i <? MAX_INITIAL_STATES)); [| exact Hs].
    pose proof (crawl_one_state_cache_ok s Hs) as H1.
    destruct (result _crawl_one_state s) as [r | x].
    + now apply IH.
    + destruct x; exact H1.
Qed.

(** X6, the cache is transparent: on a crawler whose cached fingerprints
    are those of their DOM texts, as they are when [__init__] has built it,
    [_cached_get_xml_bones] returns [get_xml_bones] of its argument, hit or
    miss, and never raises. *)
Theorem cached_get_xml_bones_transparent d s :
  cache_coherent s ->
  result (_cached_get_xml_bones d) s = Return (get_xml_bones d).
Proof. intros H. now apply cached_get_xml_bones_coherent. Qed.

(** X7, the cache over a whole [crawl]: when the cache holds at most 2
    fingerprints, each the fingerprint of its DOM text, before [crawl], it
    does so after [crawl], whatever the browser does and however [crawl]
    ends. *)
Theorem crawl_keeps_cache_ok (chrome : B) url s :
  cache_ok s -> cache_ok (after (crawl chrome url) s).
Proof.
  intros Hs. unfold after. rewrite crawl_run.
  destruct (get_url chrome) as [[home | x] b]; simpl; [| exact Hs].
  pose proof (crawl_all_states_while_cache_ok MAX_INITIAL_STATES false 0
                (set_url home (set_chrome (Some b) s)) Hs) as H.
  fold _crawl_all_states in H.
  destruct (result _crawl_all_states _) as [[] | x]; [exact H |].
  destruct x; exact H.
Qed.



(** ** The grace wait *)

Lemma chrome_call_run {A} (op : B -> outcome A * B) s b r b1 :
  _chrome s = Some b -> op b = (r, b1) ->
  chrome_call op s = (r, set_chrome (Some b1) s).
Proof. intros Hb Ho. unfold chrome_call. now rewrite Hb, Ho. Qed.

(** X9, the grace wait is given once per URL: when the browser answers
    [u] to [get_url], [_conditional_wait_for_load] leaves [u] among the
    visited URLs, forgets no visited URL, asks nothing more of the browser
    when [u] was visited already, and calls [wait_for_load] with a timeout
    of 1 when it was not; [u] is marked visited even when that wait
    raises. *)
Theorem conditional_wait_once_per_url s b u b1 :
  _chrome s = Some b ->
  get_url b = (Return u, b1) ->
  set_mem string_dec u
    (_visited_urls (after _conditional_wait_for_load s)) = true /\
  (forall u',
     set_mem string_dec u' (_visited_urls s) = true ->
     set_mem string_dec u'
       (_visited_urls (after _conditional_wait_for_load s)) = true) /\
  (set_mem string_dec u (_visited_urls s) = true ->
   _conditional_wait_for_load s = (Return tt, set_chrome (Some b1) s)) /\
  (set_mem string_dec u (_visited_urls s) = false ->
   _chrome (after _conditional_wait_for_load s)
     = Some (snd (wait_for_load (Some 1%Q) b1))).
Proof.
  intros Hb Hu.
  assert (R : _conditional_wait_for_load s =
              if set_mem string_dec u (_visited_urls s)
              then (Return tt, set_chrome (Some b1) s)
              else
                let s1 := set_visited_urls
                            (set_add string_dec u (_visited_urls s))
                            (set_chrome (Some b1) s) in
                match wait_for_load (Some 1%Q) b1 with
                | (Return _, b2) => (Return tt, set_chrome (Some b2) s1)
                | (Raise x, b2) => (Raise x, set_chrome (Some b2) s1)
                end).
  { unfold _conditional_wait_for_load. unfold bind at 1.
    rewrite (chrome_call_run get_url s b _ b1 Hb Hu).
    unfold bind, gets, modify, chrome_call. simpl.
    destruct (set_mem string_dec u (_visited_urls s)); [reflexivity |].
    simpl. now destruct (wait_for_load (Some 1%Q) b1) as [[w | x] b2]. }
  unfold after. rewrite R.
  destruct (set_mem string_dec u (_visited_urls s)) eqn:E; simpl.
  - repeat split; auto. discriminate.
  - assert (V : forall u' b2 (o : outcome unit),
              (u' = u \/ set_mem string_dec u' (_visited_urls s) = true) ->
              set_mem string_dec u'
                (_visited_urls
                   (snd (o, set_chrome (Some b2)
                              (set_visited_urls
                                 (set_add string_dec u (_visited_urls s))
                                 (set_chrome (Some b1) s))))) = true).
    { intros u' b2 o H. simpl. apply set_mem_correct2.
      destruct H as [-> | H]; [now apply set_add_intro2 |].
      apply set_add_intro1. now apply set_mem_correct1 in H. }
    destruct (wait_for_load (Some 1%Q) b1) as [[w | x] b2]; simpl;
      (split; [apply (V u b2 (Return tt)); now left |]);
      (split; [intros u' H; apply (V u' b2 (Return tt)); now right |]);
      (split; [discriminate | reflexivity]).
Qed.

(** ** Reloads and verdicts *)

Lemma reload_base_url_count s :
  _reloaded_base_url_count (after _reload_base_url s)
  = S (_reloaded_base_url_count s).
Proof.
  unfold _reload_base_url. rewrite after_bind. simpl.
  assert (K : keeps _reloaded_base_url_count
                (bind (gets _url) (fun url : string =>
                   bind (chrome_call (load_url url))
                     (fun _ => chrome_call (wait_for_load None))))).
  { apply keeps_bind; [apply keeps_gets | intros url].
    apply keeps_bind; intros; apply keeps_browser, count_io. }
  rewrite K. reflexivity.
Qed.

Lemma reload_and_read_dom_returns s d :
  result reload_and_read_dom s = Return d ->
  _reloaded_base_url_count (after reload_and_read_dom s)
  = S (_reloaded_base_url_count s).
Proof.
  unfold reload_and_read_dom. rewrite result_bind, after_bind.
  pose proof (keeps_conditional_wait_for_load _ count_io s) as K1.
  destruct (result _conditional_wait_for_load s) as [[] | x];
    [| discriminate].
  rewrite result_bind, after_bind.
  pose proof (reload_base_url_count (after _conditional_wait_for_load s))
    as K2.
  destruct (result _reload_base_url _) as [w | x]; [| discriminate].
  intros _. rewrite (keeps_browser _ count_io). lia.
Qed.

Lemma result_try_except_else {A C} (m : Method B A) handler
    (els : A -> Method B C) s :
  result (try_except_else m handler els) s =
  match result m s with
  | Return a => result (els a) (after m s)
  | Raise x =>
      match handler x with
      | Some h => result h (after m s)
      | None => Raise x
      end
  end.
Proof.
  unfold result, after, try_except_else.
  destruct (m s) as [[a | x] s1]; simpl; [reflexivity |].
  now destruct (handler x).
Qed.

Lemma after_try_except_else {A C} (m : Method B A) handler
    (els : A -> Method B C) s :
  after (try_except_else m handler els) s =
  match result m s with
  | Return a => after (els a) (after m s)
  | Raise x =>
      match handler x with
      | Some h => after h (after m s)
      | None => after m s
      end
  end.
Proof.
  unfold result, after, try_except_else.
  destruct (m s) as [[a | x] s1]; simpl; [reflexivity |].
  now destruct (handler x).
Qed.

Lemma chrome_call_result {A} (op : B -> outcome A * B) s b r b1 :
  _chrome s = Some b -> op b = (r, b1) ->
  result (chrome_call op) s = r /\
  after (chrome_call op) s = set_chrome (Some b1) s.
Proof.
  intros Hb Ho. unfold result, after.
  now rewrite (chrome_call_run op s b r b1 Hb Ho).
Qed.

Lemma side_effects_by_dom s :
  result _handle_event_dispatch_side_effects s =
    match result dom_after_dispatch s with
    | Return d =>
        match result (_cached_get_xml_bones d) (after dom_after_dispatch s)
        with
        | Return bx =>
            result (verdict_of_bones_xml bx)
              (after (_cached_get_xml_bones d) (after dom_after_dispatch s))
        | Raise x => Raise x
        end
    | Raise x => Raise x
    end /\
  _reloaded_base_url_count (after _handle_event_dispatch_side_effects s)
    = _reloaded_base_url_count (after dom_after_dispatch s) /\
  _chrome (after _handle_event_dispatch_side_effects s)
    = _chrome (after dom_after_dispatch s).
Proof.
  assert (Kc : forall d, keeps (B := B) _chrome (_cached_get_xml_bones d)).
  { intros d t. unfold after, _cached_get_xml_bones.
    now destruct (LRU.getitem d (_cached_xml_bones t)) as [[] |]. }
  assert (Kv : forall bx, keeps (B := B) _chrome (verdict_of_bones_xml bx)).
  { assert (Ho : ignores (B := B) set_om_out _chrome)
      by (intros ? ?; reflexivity).
    intros bx. unfold verdict_of_bones_xml. keeps_auto. }
  unfold _handle_event_dispatch_side_effects,
    current_bones_xml_after_dispatch.
  fold dom_after_dispatch.
  repeat (rewrite result_bind || rewrite after_bind).
  destruct (result dom_after_dispatch s) as [d | x]; [| now repeat split].
  destruct (result (_cached_get_xml_bones d) (after dom_after_dispatch s))
    as [bx | x]; split; try reflexivity.
  - rewrite (keeps_verdict_of_bones_xml _ count_io), Kv.
    rewrite (keeps_cached_get_xml_bones _ count_io), Kc. now split.
  - rewrite (keeps_cached_get_xml_bones _ count_io), Kc. now split.
Qed.

(** X10, when the classifier reloads: with the DOM readable and the
    browser at the home URL, the classifier performs no reload and asks the
    browser for nothing but the DOM and the URL; when the browser is at
    another URL, or the DOM is not ready ([ChromeInterfaceException]), every
    verdict the classifier returns comes after exactly one reload. *)
Theorem side_effects_reload_on_drift s b :
  _chrome s = Some b ->
  (forall d b1 u b2,
     get_dom b = (Return d, b1) ->
     get_url b1 = (Return u, b2) ->
     u = _url s ->
     _reloaded_base_url_count (after _handle_event_dispatch_side_effects s)
       = _reloaded_base_url_count s /\
     _chrome (after _handle_event_dispatch_side_effects s) = Some b2) /\
  (forall d b1 u b2 v,
     get_dom b = (Return d, b1) ->
     get_url b1 = (Return u, b2) ->
     u <> _url s ->
     result _handle_event_dispatch_side_effects s = Return v ->
     _reloaded_base_url_count (after _handle_event_dispatch_side_effects s)
       = S (_reloaded_base_url_count s)) /\
  (forall b1 v,
     get_dom b = (Raise ChromeInterfaceException, b1) ->
     result _handle_event_dispatch_side_effects s = Return v ->
     _reloaded_base_url_count (after _handle_event_dispatch_side_effects s)
       = S (_reloaded_base_url_count s)).
Proof.
  intros Hb. destruct (side_effects_by_dom s) as (Hr & Hc & Hch).
  rewrite Hc, Hch. clear Hc Hch.
  assert (Ret : forall v,
            result _handle_event_dispatch_side_effects s = Return v ->
            exists d, result dom_after_dispatch s = Return d).
  { intros v Hv. rewrite Hr in Hv.
    destruct (result dom_after_dispatch s) as [d | x];
      [eauto | discriminate]. }
  clear Hr.
  unfold dom_after_dispatch in *.
  rewrite after_try_except_else.
  setoid_rewrite result_try_except_else in Ret.
  split; [| split].
  - intros d b1 u b2 Hd Hu ->.
    destruct (chrome_call_result get_dom s b _ b1 Hb Hd) as [-> ->].
    rewrite after_bind.
    destruct (chrome_call_result get_url (set_chrome (Some b1) s) b1 _ b2
                eq_refl Hu) as [-> ->].
    rewrite after_bind. simpl. rewrite String.eqb_refl. simpl.
    now split.
  - intros d b1 u b2 v Hd Hu Hne Hv.
    destruct (Ret v Hv) as [d' Hd']. clear Ret. revert Hd'.
    destruct (chrome_call_result get_dom s b _ b1 Hb Hd) as [-> ->].
    rewrite result_bind, after_bind.
    destruct (chrome_call_result get_url (set_chrome (Some b1) s) b1 _ b2
                eq_refl Hu) as [-> ->].
    rewrite result_bind, after_bind. simpl.
    apply String.eqb_neq in Hne. rewrite Hne. simpl.
    intros Hd'. now rewrite (reload_and_read_dom_returns _ d' Hd').
  - intros b1 v Hd Hv.
    destruct (Ret v Hv) as [d' Hd']. clear Ret. revert Hd'.
    destruct (chrome_call_result get_dom s b _ b1 Hb Hd) as [-> ->].
    intros Hd'. now rewrite (reload_and_read_dom_returns _ d' Hd').
Qed.

(** ** States and sessions *)

Lemma result_modify (g : ChromeCrawlerJS B -> ChromeCrawlerJS B) s :
  result (modify g) s = Return tt.
Proof. reflexivity. Qed.

Lemma after_modify (g : ChromeCrawlerJS B -> ChromeCrawlerJS B) s :
  after (modify g) s = g s.
Proof. reflexivity. Qed.

Lemma result_gets {A} (g : ChromeCrawlerJS B -> A) s :
  result (gets g) s = Return (g s).
Proof. reflexivity. Qed.

Lemma after_gets {A} (g : ChromeCrawlerJS B -> A) s : after (gets g) s = s.
Proof. reflexivity. Qed.

(** X11, the fingerprint of a state: when the browser hands the DOM to
    [_crawl_one_state], the DOM is recorded in [_initial_dom] and its
    fingerprint, [get_xml_bones] of that DOM, in [_initial_bones_xml], and
    both are still there when [_crawl_one_state] is over, however it ends;
    when the browser raises instead, the exception leaves
    [_crawl_one_state] with nothing but the browser changed. *)
Theorem crawl_one_state_records_fingerprint s b :
  cache_coherent s ->
  _chrome s = Some b ->
  (forall d b1,
     get_dom b = (Return d, b1) ->
     _initial_dom (after _crawl_one_state s) = d /\
     _initial_bones_xml (after _crawl_one_state s) = get_xml_bones d) /\
  (forall x b1,
     get_dom b = (Raise x, b1) ->
     _crawl_one_state s = (Raise x, set_chrome (Some b1) s)).
Proof.
  intros Hc Hb. split.
  - intros d b1 Hd.
    assert (Tail : forall (f : ChromeCrawlerJS B -> string),
              io_independent f ->
              ignores set_reloaded_base_url_count f ->
              ignores set_event_dispatch_log f ->
              keeps f
                (bind (chrome_call
                         (get_all_event_listeners EVENTS_TO_DISPATCH))
                   (fun event_listeners =>
                      bind (_crawl_one_state_for 0 event_listeners)
                        (fun returned =>
                           match returned with
                           | Some r => ret r
                           | None =>
                               bind (chrome_call
                                       (wait_for_load (Some (1 # 2))))
                                 (fun _ =>
                                    bind (chrome_call
                                            (navigation_started
                                               (Some (1 # 2))))
                                      (fun _ => ret true))
                           end)))).
    { intros f Hio Hcount Hlog.
      apply keeps_bind; [now apply keeps_browser | intros ls].
      apply keeps_bind; [now apply keeps_crawl_one_state_for | intros r].
      destruct r; [apply keeps_ret |].
      apply keeps_bind; [now apply keeps_browser | intros _].
      apply keeps_bind; [now apply keeps_browser | intros _].
      apply keeps_ret. }
    unfold _crawl_one_state.
    rewrite after_bind.
    destruct (chrome_call_result get_dom s b _ b1 Hb Hd) as [-> ->].
    rewrite after_bind, result_modify, after_modify.
    rewrite after_bind, result_gets, after_gets.
    rewrite after_bind.
    set (s1 := set_initial_dom d (set_chrome (Some b1) s)).
    assert (Hc1 : cache_coherent s1) by exact Hc.
    destruct (cached_get_xml_bones_coherent (_initial_dom s1) s1 Hc1)
      as [-> _].
    rewrite after_bind, result_modify, after_modify.
    split.
    + rewrite Tail; [| ignores_all ..]. simpl.
      now rewrite (keeps_cached_get_xml_bones _initial_dom);
        [| ignores_all].
    + rewrite Tail; [reflexivity | ignores_all ..].
  - intros x b1 Hd. unfold _crawl_one_state, bind at 1.
    now rewrite (chrome_call_run get_dom s b _ b1 Hb Hd).
Qed.

(** X12, the boundary of [crawl] once [chrome.get_url()] has answered:
    neither [ChromeInterfaceException] nor [MaxPageReload] leaves [crawl];
    a [ChromeInterfaceException] of the session makes [crawl] return after
    one debug message that carries the [url] argument; any other exception
    of the session leaves [crawl] as it is. *)
Theorem crawl_boundary (chrome : B) url s home b :
  get_url chrome = (Return home, b) ->
  result (crawl chrome url) s <> Raise ChromeInterfaceException /\
  result (crawl chrome url) s <> Raise MaxPageReload /\
  (result _crawl_all_states (set_url home (set_chrome (Some b) s))
     = Raise ChromeInterfaceException ->
   result (crawl chrome url) s = Return tt /\
   om_out (after (crawl chrome url) s) =
     (om_out (after _crawl_all_states
                (set_url home (set_chrome (Some b) s)))
      ++ [MsgInterfaceException url ChromeInterfaceException])%list) /\
  (forall x,
     x <> ChromeInterfaceException ->
     result _crawl_all_states (set_url home (set_chrome (Some b) s))
       = Raise x ->
     result (crawl chrome url) s = Raise x).
Proof.
  intros H.
  destruct (crawl_catches chrome url s home b H) as [C1 C2].
  split; [exact C1 |]. split; [exact C2 |].
  unfold result at 2 4, after at 1. rewrite crawl_run, H. simpl.
  split.
  - intros ->. now split.
  - intros x Hx ->. destruct x; try reflexivity. contradiction.
Qed.


End Properties.

(** * The properties on the simulated browser *)

#[local] Existing Instance exact_fingerprints.

(** A hypothesis-free run of C4: a click on a button whose only entry is
    [FAILED] is accepted again. *)
Lemma retry_on_failure_witness :
  let e := click "#go" in
  let s := in_session quiet [mkUnit e FAILED] 0 bones_of_home in
  (in_events_to_dispatch (event_type e) = true /\
   with_key e (_event_dispatch_log s) <> [] /\
   all_FAILED (with_key e (_event_dispatch_log s))) /\
  _should_dispatch_event e s = (Return true, s).
Proof.
  intros e s.
  assert (H1 : in_events_to_dispatch (event_type e) = true) by reflexivity.
  assert (H2 : with_key e (_event_dispatch_log s) <> []) by discriminate.
  assert (H3 : all_FAILED (with_key e (_event_dispatch_log s)))
    by (repeat constructor).
  split; [auto | exact (retry_on_failure e s H1 H2 H3)].
Defined.

(** A run of C1 as amended: the only entry of the key is [SUCCESS]. *)
Lemma dedup_by_first_entry_witness :
  let e := click "#go" in
  let s := in_session quiet [mkUnit e SUCCESS] 0 bones_of_home in
  (first_with_key e (_event_dispatch_log s) = Some (mkUnit e SUCCESS) /\
   state (mkUnit e SUCCESS) <> FAILED) /\
  result (_should_dispatch_event e) s = Return false /\
  _event_dispatch_log (after (_should_dispatch_event e) s) =
    [mkUnit e SUCCESS; mkUnit e IGNORED] /\
  _chrome (after (_should_dispatch_event e) s) = _chrome s.
Proof.
  intros e s.
  assert (H1 : first_with_key e (_event_dispatch_log s)
               = Some (mkUnit e SUCCESS)) by reflexivity.
  assert (H2 : state (mkUnit e SUCCESS) <> FAILED) by discriminate.
  split; [auto | exact (proj1 (dedup_by_first_entry e s _ H1) H2)].
Defined.

(** C1 as stated fails: with a [FAILED] entry before the [SUCCESS] entry of
    the same key, the filter returns [True] and appends nothing; and in the
    session on [flaky_button] the key is dispatched three times with
    success after its first failure. *)
Lemma dedup_counterexample :
  let e := click "#go" in
  let s := in_session quiet [mkUnit e FAILED; mkUnit e SUCCESS] 0
             bones_of_home in
  In (mkUnit e SUCCESS) (_event_dispatch_log s) /\
  _should_dispatch_event e s = (Return true, s) /\
  outcomes (_event_dispatch_log (snd (crawl_sim flaky_button home))) =
    [("#go", FAILED); ("#go", SUCCESS); ("#go", SUCCESS); ("#go", SUCCESS)].
Proof.
  intros e s. split; [right; left; reflexivity |].
  split; vm_compute; reflexivity.
Qed.

(** C2 at its failing input: the ten most recent entries of the log are all
    [FAILED], an older entry is [SUCCESS], and the classifier returns
    [CONTINUE_WITH_NEXT_EVENTS]; in the session on [ten_failures] the
    twelfth button is dispatched after ten failures in a row. *)
Theorem failure_streak_reads_oldest_entries :
  let s := in_session quiet one_success_ten_failures 0 bones_of_home in
  all_FAILED
    (last_entries MAX_CONSECUTIVE_EVENT_DISPATCH_ERRORS
       (_event_dispatch_log s)) /\
  result _handle_event_dispatch_side_effects s
    = Return CONTINUE_WITH_NEXT_EVENTS /\
  map state (_event_dispatch_log (snd (crawl_sim ten_failures home))) =
    SUCCESS :: repeat FAILED 10 ++ [SUCCESS].
Proof.
  intros s. split; [vm_compute; repeat constructor |].
  split; vm_compute; reflexivity.
Qed.

(** A run of C3 as amended: a classification entered with 50 reloads on a
    tab that has navigated away reloads once and returns
    [TOO_MANY_PAGE_RELOAD] with 51 reloads performed. *)
Lemma reload_bound_witness :
  let s := in_session away [mkUnit (click "#go") SUCCESS] 50 bones_of_home in
  (result current_bones_xml_after_dispatch s = Return bones_of_home /\
   result _handle_event_dispatch_side_effects s
     = Return TOO_MANY_PAGE_RELOAD /\
   _reloaded_base_url_count fresh <= MAX_PAGE_RELOAD) /\
  MAX_PAGE_RELOAD <
    _reloaded_base_url_count (after _handle_event_dispatch_side_effects s) /\
  _reloaded_base_url_count (after (crawl reload_loop home) fresh)
    <= MAX_PAGE_RELOAD + MAX_INITIAL_STATES.
Proof.
  intros s.
  assert (H1 : result current_bones_xml_after_dispatch s
               = Return bones_of_home) by (vm_compute; reflexivity).
  assert (H2 : result _handle_event_dispatch_side_effects s
               = Return TOO_MANY_PAGE_RELOAD) by (vm_compute; reflexivity).
  assert (H3 : _reloaded_base_url_count fresh <= MAX_PAGE_RELOAD)
    by (vm_compute; lia).
  destruct (@reload_bound Sim.t _ _) as (_ & P2 & _ & P4).
  split; [auto |].
  split; [exact (proj2 (proj1 (P2 s _ H1) H2)) | exact (P4 _ _ _ H3)].
Defined.

(** C3 as stated fails: the 51st reload is performed by the classification
    that then returns [TOO_MANY_PAGE_RELOAD]; the session on [reload_loop]
    ends with 51 reloads and the session on [three_states] with 53. *)
Lemma reload_bound_counterexample :
  let s := in_session away [mkUnit (click "#go") SUCCESS] 50 bones_of_home in
  _reloaded_base_url_count s = 50 /\
  result _handle_event_dispatch_side_effects s = Return TOO_MANY_PAGE_RELOAD /\
  _reloaded_base_url_count (after _handle_event_dispatch_side_effects s) = 51 /\
  _reloaded_base_url_count (snd (crawl_sim reload_loop home)) = 51 /\
  _reloaded_base_url_count (snd (crawl_sim three_states home)) = 53.
Proof.
  intros s. repeat split; vm_compute; reflexivity.
Qed.

(** A run of C5 as amended: a dispatch that rewrites the DOM is classified
    [NEW_STATE_FOUND] and ends the loop although a listener remains. *)
Lemma new_state_verdict_witness :
  let b := Sim.open one_page home [click "#a"; click "#b"]
             [Sim.Rewrites "<html><form/></html>"] in
  let s := set_initial_bones_xml bones_of_home
             (set_url home (set_chrome (Some b) fresh)) in
  let e := click "#a" in
  (result (_should_dispatch_event e) s = Return true /\
   result (_dispatch_event e) (after (_should_dispatch_event e) s)
     = Return true /\
   result _handle_event_dispatch_side_effects (before_classifier 0 e s)
     = Return NEW_STATE_FOUND) /\
  _crawl_one_state_for 0 [e; click "#b"] s
    = (Return (Some false), after_classifier 0 e s).
Proof.
  intros b s e.
  assert (H1 : result (_should_dispatch_event e) s = Return true)
    by (vm_compute; reflexivity).
  assert (H2 : result (_dispatch_event e) (after (_should_dispatch_event e) s)
               = Return true) by (vm_compute; reflexivity).
  assert (H3 : result _handle_event_dispatch_side_effects
                 (before_classifier 0 e s) = Return NEW_STATE_FOUND)
    by (vm_compute; reflexivity).
  split; [auto |].
  exact (proj2 (proj2 (proj2 (@new_state_verdict Sim.t _ _)))
           0 e [click "#b"] s true H1 H2 H3).
Defined.

(** C5 as stated fails: the fingerprint after the dispatch is fuzzy-equal
    to the initial one and the classifier returns [NEW_STATE_FOUND]
    nevertheless, by the failure check. *)
Lemma new_state_verdict_counterexample :
  let s := in_session quiet [mkUnit (click "#go") FAILED] 0 bones_of_home in
  result current_bones_xml_after_dispatch s = Return bones_of_home /\
  _bones_xml_are_equal (_initial_bones_xml s) bones_of_home = true /\
  result _handle_event_dispatch_side_effects s = Return NEW_STATE_FOUND.
Proof.
  intros s. repeat split; vm_compute; reflexivity.
Qed.

(** C6 at its failing input: the browser raises
    [ChromeInterfaceException] in the [get_url] call that [crawl] makes
    before its [try], and the exception leaves [crawl]. *)
Theorem crawl_lets_interface_exception_out :
  result (crawl lost home) fresh = Raise ChromeInterfaceException.
Proof. vm_compute. reflexivity. Qed.

(** A run of C7: the target is missing, the dispatcher logs [FAILED] and
    returns [False]. *)
Lemma dispatch_event_outcome_witness :
  let e := click "#go" in
  let s := set_url home (set_chrome (Some flaky_button) fresh) in
  _chrome s = Some flaky_button /\
  result (_dispatch_event e) s = Return false /\
  _event_dispatch_log (after (_dispatch_event e) s) = [mkUnit e FAILED].
Proof.
  intros e s. split; [reflexivity |].
  exact (dispatch_event_outcome e s flaky_button eq_refl).
Defined.

(** A run of C8 on a new crawler: three DOM texts, then one of them twice. *)
Lemma fingerprint_cache_witness :
  cache_bounded fresh /\
  LRU.size (_cached_xml_bones (after (cached_calls ["<a/>"; "<b/>"; "<c/>"])
                                 fresh)) <= 2 /\
  result (_cached_get_xml_bones "<a/>")
    (after (_cached_get_xml_bones "<a/>") fresh)
    = result (_cached_get_xml_bones "<a/>") fresh /\
  get_xml_bones_calls
    (after (_cached_get_xml_bones "<a/>")
       (after (_cached_get_xml_bones "<a/>") fresh)) <= 1.
Proof.
  assert (H : cache_bounded fresh) by (split; vm_compute; lia).
  destruct (fingerprint_cache fresh H) as (P1 & _ & P3).
  split; [exact H |]. split; [exact (P1 _) |].
  destruct (P3 "<a/>") as (Q1 & _ & Q3). split; [exact Q1 | exact Q3].
Defined.

(** A run of C9 as amended. *)
Lemma home_url_is_browser_url_witness :
  get_url redirected = (Return elsewhere, redirected) /\
  _url (after (crawl redirected home) fresh) = elsewhere.
Proof.
  assert (H : get_url redirected = (Return elsewhere, redirected))
    by reflexivity.
  split; [exact H |].
  exact (proj1 (@home_url_is_browser_url Sim.t _ _) redirected home fresh
           elsewhere redirected H).
Defined.

(** C9 as stated fails: the session is asked to crawl [home] on a tab that
    is at [elsewhere]; its home URL is [elsewhere], and that is the URL it
    reloads. *)
Lemma home_url_counterexample :
  let s := snd (crawl_sim redirected home) in
  _url s <> home /\
  _url s = elsewhere /\
  option_map Sim.loaded (_chrome s) = Some [elsewhere].
Proof.
  intros s. split; [vm_compute; discriminate |].
  split; vm_compute; reflexivity.
Qed.

(** A run of C10: the first dispatch of a session fails and the state is
    given up. *)
Lemma short_log_streak_witness :
  let e := click "#go" in
  let s := set_url home (set_chrome (Some flaky_button) fresh) in
  let s1 := in_session quiet [mkUnit e FAILED] 0 bones_of_home in
  (length (_event_dispatch_log s1) < MAX_CONSECUTIVE_EVENT_DISPATCH_ERRORS /\
   all_FAILED (_event_dispatch_log s1) /\
   result _handle_event_dispatch_side_effects s1
     <> Return CONTINUE_WITH_NEXT_EVENTS) /\
  _event_dispatch_log
    (after (_crawl_one_state_for 0 [e; click "#go"; click "#go"]) s)
    = [mkUnit e FAILED].
Proof.
  intros e s s1.
  destruct (@short_log_streak Sim.t _ _) as (P1 & P2).
  assert (H1 : length (_event_dispatch_log s1)
               < MAX_CONSECUTIVE_EVENT_DISPATCH_ERRORS)
    by (vm_compute; lia).
  assert (H2 : all_FAILED (_event_dispatch_log s1)) by (repeat constructor).
  split; [split; [exact H1 | split; [exact H2 | exact (proj1 (P1 s1 H1 H2))]] |].
  refine (proj1 (P2 0 e _ s flaky_button eq_refl eq_refl _ eq_refl _)).
  - vm_compute. lia.
  - left. reflexivity.
Defined.

(** * Further properties on the simulated browser *)

(** A run of X6 on a new crawler. *)
Lemma cached_get_xml_bones_transparent_witness :
  cache_coherent fresh /\
  result (_cached_get_xml_bones "<a/>") fresh = Return "<a/>".
Proof.
  assert (H : cache_coherent fresh) by (intros k v E; discriminate E).
  split; [exact H | exact (cached_get_xml_bones_transparent "<a/>" fresh H)].
Defined.

(** A run of X7: the session on [reload_loop]. *)
Lemma crawl_keeps_cache_ok_witness :
  cache_ok fresh /\ cache_ok (after (crawl reload_loop home) fresh).
Proof.
  assert (H : cache_ok fresh).
  { split; [split; vm_compute; lia | intros k v E; discriminate E]. }
  split; [exact H | exact (crawl_keeps_cache_ok reload_loop home fresh H)].
Defined.


(** A run of X9: the tab is at a URL not visited before. *)
Lemma conditional_wait_once_per_url_witness :
  let s := set_url home (set_chrome (Some away) fresh) in
  (_chrome s = Some away /\ get_url away = (Return elsewhere, away)) /\
  set_mem string_dec elsewhere
    (_visited_urls (after _conditional_wait_for_load s)) = true.
Proof.
  intros s. split; [split; reflexivity |].
  exact (proj1 (conditional_wait_once_per_url s away elsewhere away
                  eq_refl eq_refl)).
Defined.

(** A run of X10: the tab has navigated away, the classifier reloads
    once. *)
Lemma side_effects_reload_on_drift_witness :
  let s := in_session away [mkUnit (click "#go") SUCCESS] 0 bones_of_home in
  (_chrome s = Some away /\
   get_dom away = (Return bones_of_home, away) /\
   get_url away = (Return elsewhere, away) /\
   elsewhere <> _url s /\
   result _handle_event_dispatch_side_effects s
     = Return CONTINUE_WITH_NEXT_EVENTS) /\
  _reloaded_base_url_count (after _handle_event_dispatch_side_effects s)
    = S (_reloaded_base_url_count s).
Proof.
  intros s.
  assert (H1 : _chrome s = Some away) by reflexivity.
  assert (H2 : get_dom away = (Return bones_of_home, away)) by reflexivity.
  assert (H3 : get_url away = (Return elsewhere, away)) by reflexivity.
  assert (H4 : elsewhere <> _url s) by (vm_compute; discriminate).
  assert (H5 : result _handle_event_dispatch_side_effects s
               = Return CONTINUE_WITH_NEXT_EVENTS)
    by (vm_compute; reflexivity).
  split; [auto 6 |].
  exact (proj1 (proj2 (side_effects_reload_on_drift s away H1))
           _ _ _ _ _ H2 H3 H4 H5).
Defined.

(** A run of X11 on the quiet page. *)
Lemma crawl_one_state_records_fingerprint_witness :
  let s := set_url home (set_chrome (Some quiet) fresh) in
  (cache_coherent s /\ _chrome s = Some quiet /\
   get_dom quiet = (Return bones_of_home, quiet)) /\
  _initial_dom (after _crawl_one_state s) = bones_of_home /\
  _initial_bones_xml (after _crawl_one_state s) = bones_of_home.
Proof.
  intros s.
  assert (H1 : cache_coherent s) by (intros k v E; discriminate E).
  assert (H2 : get_dom quiet = (Return bones_of_home, quiet))
    by reflexivity.
  split; [auto |].
  exact (proj1 (crawl_one_state_records_fingerprint s quiet H1 eq_refl)
           _ _ H2).
Defined.

(** A run of X12: the browser goes down at the first dispatch. *)
Lemma crawl_boundary_witness :
  get_url crashing = (Return home, crashing) /\
  result (crawl crashing home) fresh <> Raise ChromeInterfaceException /\
  result (crawl crashing home) fresh <> Raise MaxPageReload.
Proof.
  assert (H : get_url crashing = (Return home, crashing)) by reflexivity.
  destruct (crawl_boundary crashing home fresh home crashing H)
    as (C1 & C2 & _).
  split; [exact H | split; [exact C1 | exact C2]].
Defined.

(** * Properties of the document parser *)

Module DocumentParserProperties.

Import DocumentParser.

Section Selection.

Context {Resp P : Type} {collaborators : Collaborators Resp P}.

Lemma last_cons {A} (a d : A) l : last (a :: l) d = last l a.
Proof.
  revert a d. induction l as [| b l IH]; intros a d; [reflexivity |].
  change (last (a :: b :: l) d) with (last (b :: l) d).
  now rewrite (IH b d), (IH b a).
Qed.

(** The loop of [__init__], by the attempts it makes. *)
Lemma init_for_run (parsers : list (ParserClass Resp P)) http_resp :
  forall self,
    __init___for parsers http_resp self =
    (match first_crash (attempts parsers http_resp) with
     | Some x => Raise x
     | None => Return tt
     end,
     mkDocumentParser
       (last (map Some (built (before_crash (attempts parsers http_resp))))
          (_parser self))
       (om_out self ++
        map (timeout_message http_resp)
          (timed_out (before_crash (attempts parsers http_resp))))).
Proof.
  induction parsers as [| c rest IH]; intros self.
  - simpl. rewrite app_nil_r. now destruct self.
  - assert (E : attempts (c :: rest) http_resp =
                if can_parse c http_resp
                then (c, construct c http_resp) :: attempts rest http_resp
                else attempts rest http_resp)
      by (unfold attempts; simpl; now destruct (can_parse c http_resp)).
    rewrite E. clear E.
    cbn [__init___for].
    destruct (can_parse c http_resp); [| apply IH].
    destruct (construct c http_resp) as [p | x].
    + rewrite IH.
      cbn [first_crash before_crash crashes snd fst built flat_map
           timed_out app map _parser om_out].
      now rewrite last_cons.
    + destruct x;
        cbn [first_crash before_crash crashes snd fst built flat_map
             timed_out app map _parser om_out];
        try (rewrite app_nil_r; now destruct self).
      rewrite IH.
      cbn [first_crash before_crash crashes snd fst built flat_map
           timed_out app map _parser om_out].
      now rewrite <- app_assoc.
Qed.

Lemma init_run http_resp :
  __init__ http_resp =
  if is_image http_resp
  then (Raise (BaseFrameworkException NoParserForImages),
        mkDocumentParser None [])
  else
    let pre := before_crash (attempts PARSERS http_resp) in
    let self :=
      mkDocumentParser (last (map Some (built pre)) None)
        (map (timeout_message http_resp) (timed_out pre)) in
    match first_crash (attempts PARSERS http_resp) with
    | Some x => (Raise x, self)
    | None =>
        match _parser self with
        | None =>
            (Raise (BaseFrameworkException
                      (NoParserFor (get_url http_resp))), self)
        | Some _ => (Return tt, self)
        end
    end.
Proof.
  unfold __init__. destruct (is_image http_resp); [reflexivity |].
  rewrite init_for_run. simpl.
  now destruct (first_crash (attempts PARSERS http_resp)).
Qed.

Lemma before_crash_none (l : list (ParserClass Resp P * outcome P)) :
  first_crash l = None -> before_crash l = l.
Proof.
  induction l as [| a rest IH]; simpl; [reflexivity |].
  destruct (crashes a) eqn:E.
  - unfold crashes in E. destruct (snd a) as [p | x]; discriminate.
  - intros H. now rewrite IH.
Qed.

Lemma last_built_some (l : list P) :
  last (map Some l) None = None -> l = [].
Proof.
  destruct l as [| p l]; [reflexivity |]. simpl map. rewrite last_cons.
  revert p. induction l as [| q l IH]; intros p; simpl; [discriminate |].
  intros H. change (last (map Some (q :: l)) (Some p) = None) in H.
  simpl map in H. rewrite last_cons in H. now apply IH in H.
Qed.

(** X14, the last capable parser wins: for a response that is not an
    image, when no parser class that can parse it raises anything but
    [TimeoutException], [__init__] raises nothing exactly when some class
    that can parse the response is built in time, [self._parser] is then
    the instance built by the last such class of [PARSERS], and the debug
    output names the classes that timed out, in order.  The loop has no
    [break]: a later class overwrites the parser of an earlier one. *)
Theorem init_last_capable_parser_wins http_resp :
  is_image http_resp = false ->
  first_crash (attempts PARSERS http_resp) = None ->
  _parser (snd (__init__ http_resp)) =
    last (map Some (built (attempts PARSERS http_resp))) None /\
  om_out (snd (__init__ http_resp)) =
    map (timeout_message http_resp)
      (timed_out (attempts PARSERS http_resp)) /\
  (fst (__init__ http_resp) = Return tt <->
   built (attempts PARSERS http_resp) <> []) /\
  (built (attempts PARSERS http_resp) = [] ->
   fst (__init__ http_resp) =
     Raise (BaseFrameworkException (NoParserFor (get_url http_resp)))).
Proof.
  intros Hi Hc. rewrite init_run, Hi, Hc.
  rewrite (before_crash_none _ Hc). simpl.
  destruct (last (map Some (built (attempts PARSERS http_resp))) None)
    as [p |] eqn:E; simpl.
  - repeat split; try reflexivity.
    + intros _ H. rewrite H in E. discriminate.
    + intros H. rewrite H in E. discriminate.
  - apply last_built_some in E. repeat split; try reflexivity.
    + discriminate.
    + intros H. contradiction.
Qed.

(** X15, the HTML parser overrides: [HTMLParser] is the last class of
    [PARSERS], so when it can parse a response that is not an image and is
    built in time, and no class that can parse the response raises anything
    but [TimeoutException], [self._parser] is the HTML parser's instance,
    whichever more specific classes were built before it. *)
Theorem init_html_parser_overrides http_resp p :
  is_image http_resp = false ->
  first_crash (attempts PARSERS http_resp) = None ->
  can_parse HTMLParser http_resp = true ->
  construct HTMLParser http_resp = Return p ->
  __init__ http_resp =
    (Return tt,
     mkDocumentParser (Some p)
       (map (timeout_message http_resp)
          (timed_out (attempts PARSERS http_resp)))).
Proof.
  intros Hi Hc Hcan Hp. rewrite init_run, Hi, Hc.
  rewrite (before_crash_none _ Hc). simpl.
  assert (E : last (map Some (built (attempts PARSERS http_resp))) None
              = Some p).
  { unfold attempts, PARSERS. simpl.
    repeat match goal with
           | |- context [can_parse ?c http_resp] =>
               lazymatch c with
               | HTMLParser => fail
               | _ => destruct (can_parse c http_resp)
               end
           end;
      rewrite Hcan; simpl; unfold built; simpl; rewrite Hp; simpl;
      repeat match goal with
             | |- context [construct ?c http_resp] =>
                 destruct (construct c http_resp)
             end;
      simpl; rewrite ?last_cons; reflexivity. }
  now rewrite E.
Qed.

(** X16, an exception of a parser class ends the construction: for a
    response that is not an image, the first class of [PARSERS] that can
    parse it and raises something else than [TimeoutException] makes
    [__init__] raise that exception, also when an earlier class was built;
    the classes after it are not tried. *)
Theorem init_parser_exception_propagates http_resp x :
  is_image http_resp = false ->
  first_crash (attempts PARSERS http_resp) = Some x ->
  fst (__init__ http_resp) = Raise x /\
  x <> TimeoutException /\
  om_out (snd (__init__ http_resp)) =
    map (timeout_message http_resp)
      (timed_out (before_crash (attempts PARSERS http_resp))).
Proof.
  intros Hi Hc. rewrite init_run, Hi, Hc. simpl.
  repeat split.
  clear Hi. induction (attempts PARSERS http_resp) as [| a l IH];
    simpl in Hc; [discriminate |].
  destruct (crashes a) eqn:E; [| auto].
  unfold crashes in E. destruct (snd a) as [q | y]; [discriminate |].
  inversion Hc; subst. destruct x; discriminate.
Qed.

(** X17, images have no parser: for an image [__init__] raises
    [BaseFrameworkException] before any parser class is asked, and for every
    response that makes [__init__] return, [self._parser] is set. *)
Theorem init_never_returns_without_parser http_resp :
  (is_image http_resp = true ->
   __init__ http_resp =
     (Raise (BaseFrameworkException NoParserForImages),
      mkDocumentParser None [])) /\
  (fst (__init__ http_resp) = Return tt ->
   is_image http_resp = false /\
   exists p, _parser (snd (__init__ http_resp)) = Some p).
Proof.
  rewrite init_run. split.
  - intros ->. reflexivity.
  - destruct (is_image http_resp); [discriminate |]. simpl.
    destruct (first_crash (attempts PARSERS http_resp)); [discriminate |].
    destruct (last _ None) as [p |]; simpl; [eauto | discriminate].
Qed.

End Selection.

(** A run of X14: a WML response is also text, so the WML parser and the
    HTML parser are both built, and the HTML parser is the one kept. *)
Lemma init_last_capable_parser_wins_witness :
  let r := "text/vnd.wap.wml" in
  (is_image (Collaborators := toy_parsers) r = false /\
   first_crash (attempts (PARSERS (collaborators := toy_parsers)) r) = None) /\
  built (attempts (PARSERS (collaborators := toy_parsers)) r)
    = ["wml"; "html"] /\
  _parser (snd (__init__ (collaborators := toy_parsers) r)) = Some "html".
Proof.
  intros r.
  assert (H1 : is_image (Collaborators := toy_parsers) r = false)
    by reflexivity.
  assert (H2 : first_crash (attempts (PARSERS (collaborators := toy_parsers)) r)
               = None) by reflexivity.
  split; [auto |]. split; [reflexivity |].
  exact (proj1 (init_last_capable_parser_wins (collaborators := toy_parsers)
                  r H1 H2)).
Defined.

(** A run of X15 on the same response. *)
Lemma init_html_parser_overrides_witness :
  let r := "text/vnd.wap.wml" in
  (is_image (Collaborators := toy_parsers) r = false /\
   first_crash (attempts (PARSERS (collaborators := toy_parsers)) r) = None /\
   can_parse (HTMLParser (Collaborators := toy_parsers)) r = true /\
   construct (HTMLParser (Collaborators := toy_parsers)) r = Return "html") /\
  __init__ (collaborators := toy_parsers) r
    = (Return tt, mkDocumentParser (Some "html") []).
Proof.
  intros r. split; [repeat split |].
  exact (init_html_parser_overrides (collaborators := toy_parsers) r "html"
           eq_refl eq_refl eq_refl eq_refl).
Defined.

(** A run of X16: the WML parser is built, then the SWF parser raises. *)
Lemma init_parser_exception_propagates_witness :
  let r := "text/vnd.wap.wml" in
  (is_image (Collaborators := crashing_parsers) r = false /\
   first_crash (attempts (PARSERS (collaborators := crashing_parsers)) r)
     = Some (OtherException "struct.error")) /\
  fst (__init__ (collaborators := crashing_parsers) r)
    = Raise (OtherException "struct.error").
Proof.
  intros r. split; [split; reflexivity |].
  exact (proj1 (init_parser_exception_propagates
                  (collaborators := crashing_parsers) r _ eq_refl eq_refl)).
Defined.

End DocumentParserProperties.
